(** * serverless-kubeless: deployment reconciler, readiness poller, log filter

    A shallow embedding of [deploy/kubelessDeploy.js] and
    [logs/kubelessLogs.js].  JavaScript values are modelled by the small
    fragment the two files use: strings, non-negative safe integers, optional
    (possibly [undefined]) fields, arrays as lists and objects with ordered
    own keys as association lists.  A [throw] is the [Throw] result.  Calls
    to the cluster API, to the clock and to the [moment] library are
    external; their answers are inputs of the model. *)

From stdpp Require Import base decidable option list strings numbers.
From Stdlib Require Import Ascii ZArith Lia DecimalString.

Local Open Scope string_scope.
Local Open Scope list_scope.
Local Open Scope nat_scope.

(** ** JavaScript and lodash helpers *)

Module Js.

(** [Number.MAX_SAFE_INTEGER], 2^53 - 1. *)
Definition MAX_SAFE_INTEGER : N := 9007199254740991.

(** A scalar of the service description: a YAML integer or a string.  The
    integers are the non-negative safe integers: they are numbers of
    JavaScript as they stand, [toString] prints them digit by digit (exponent
    form starts at 1e21) and lodash takes each of them for a length. *)
Inductive scalar :=
  | Num (n : N) (safe : Is_true (n <=? MAX_SAFE_INTEGER)%N)
  | Str (s : string).

#[global] Instance scalar_eq_dec : EqDecision scalar.
Proof.
  intros [n p|s] [m q|t]; try (right; discriminate).
  - destruct (decide (n = m)) as [-> | Hne].
    + left. f_equal. apply proof_irrel.
    + right. intros [= Hnm]. exact (Hne Hnm).
  - destruct (decide (s = t)) as [-> | Hne].
    + left. reflexivity.
    + right. intros [= Hst]. exact (Hne Hst).
Defined.

(** [v.toString()] *)
Definition toString (v : scalar) : string :=
  match v with
  | Num n _ => NilZero.string_of_uint (N.to_uint n)
  | Str s => s
  end.

(** Truthiness, as tested by [if (v)] and [v || w]. *)
Definition truthy (v : scalar) : bool :=
  match v with
  | Num n _ => bool_decide (n ≠ 0%N)
  | Str s => bool_decide (s ≠ "")
  end.

Definition truthy_opt (v : option scalar) : bool :=
  match v with
  | Some x => truthy x
  | None => false
  end.

Definition truthy_str (v : option string) : bool :=
  match v with
  | Some s => bool_decide (s ≠ "")
  | None => false
  end.

(** [a || b] on optional strings. *)
Definition or_str (a b : option string) : option string :=
  if truthy_str a then a else b.

(** [_.isEmpty] on an optional string: [undefined] and [''] are empty. *)
Definition isEmpty_str (v : option string) : bool := negb (truthy_str v).

(** A template literal prints a missing value as [undefined]. *)
Definition show_opt (v : option string) : string :=
  match v with
  | Some s => s
  | None => "undefined"
  end.

(** The character class [\d]. *)
Definition is_digit (c : ascii) : bool :=
  (48 <=? nat_of_ascii c)%nat && (nat_of_ascii c <=? 57)%nat.

(** The character class [[a-zA-Z]]. *)
Definition is_alpha (c : ascii) : bool :=
  ((65 <=? nat_of_ascii c)%nat && (nat_of_ascii c <=? 90)%nat)
  || ((97 <=? nat_of_ascii c)%nat && (nat_of_ascii c <=? 122)%nat).

Fixpoint all_digits (s : string) : bool :=
  match s with
  | EmptyString => true
  | String c s' => is_digit c && all_digits s'
  end.

(** [/\d+$/] tried at the start of [s]: one or more digits up to the end. *)
Definition digits_to_end (s : string) : bool :=
  bool_decide (s ≠ "") && all_digits s.

(** [s.match(/\d+$/)] is truthy: the pattern is tried at every position
    from left to right. *)
Fixpoint match_digits_at_end (s : string) : bool :=
  digits_to_end s
  || match s with
     | EmptyString => false
     | String _ s' => match_digits_at_end s'
     end.

(** The last character of a string, if any. *)
Fixpoint last_char (s : string) : option ascii :=
  match s with
  | EmptyString => None
  | String c EmptyString => Some c
  | String _ s' => last_char s'
  end.

(** [s.includes(needle)]; also [s.match(/needle/)] for a pattern without
    special characters. *)
Fixpoint includes (needle s : string) : bool :=
  String.prefix needle s
  || match s with
     | EmptyString => false
     | String _ s' => includes needle s'
     end.

(** [s.split(c)]: the pieces between the occurrences of [c]; never empty. *)
Fixpoint split (c : ascii) (s : string) : list string :=
  match s with
  | EmptyString => [""]
  | String a s' =>
      if bool_decide (a = c) then "" :: split c s'
      else match split c s' with
           | [] => [String a ""]
           | piece :: pieces => String a piece :: pieces
           end
  end.

(** [_.compact] on an array of strings drops the empty ones. *)
Definition compact (l : list string) : list string :=
  filter (λ s, s ≠ "") l.

Definition newline : string := String "010"%char "".
Definition dquote : string := String "034"%char "".

(** [l.join(sep)] *)
Definition join (sep : string) (l : list string) : string :=
  String.concat sep l.

(** The text ends in a decimal digit. *)
Definition ends_in_digit (s : string) : bool :=
  match last_char s with
  | Some c => is_digit c
  | None => false
  end.

(** The wording of the specification for a memory value without unit:
    "purely numeric", a text made of decimal digits only. *)
Definition purely_numeric (v : scalar) : bool := digits_to_end (toString v).

(** The outcome of a call that may [throw]. *)
Inductive result (A : Type) :=
  | Ok (a : A)
  | Throw (e : string).
Arguments Ok {A} a.
Arguments Throw {A} e.

#[global] Instance result_ret : MRet result := λ A a, Ok a.
#[global] Instance result_bind : MBind result := λ A B k m,
  match m with
  | Ok a => k a
  | Throw e => Throw e
  end.

End Js.

(** ** deploy/kubelessDeploy.js *)

Module KubelessDeploy.
Import Js.

(** The value under an event key of the service description:
    [trigger: 'topic'], [http: { path: ..., hostname: ... }] or [http:]
    left empty ([null]). *)
Inductive EventValue :=
  | EvNull
  | EvStr (s : string)
  | EvObj (path hostname : option string).

#[global] Instance EventValue_eq_dec : EqDecision EventValue.
Proof. solve_decision. Defined.

(** An event is an object; its own keys are kept in order. *)
Definition Event := list (string * EventValue).

(** [event[key]], [undefined] when the key is missing. *)
Fixpoint get_key (key : string) (event : Event) : option EventValue :=
  match event with
  | [] => None
  | (k, v) :: rest => if bool_decide (k = key) then Some v else get_key key rest
  end.

(** [_.keys(event)[0]] *)
Definition first_key (event : Event) : option string :=
  match event with
  | [] => None
  | (k, _) :: _ => Some k
  end.

(** [_.isEmpty(v)] for the value of an event key. *)
Definition isEmpty (v : option EventValue) : bool :=
  match v with
  | None => true
  | Some EvNull => true
  | Some (EvStr s) => bool_decide (s = "")
  | Some (EvObj None None) => true
  | Some (EvObj _ _) => false
  end.

Record EnvVar := { env_name : string; env_value : string }.

Record Resources := { limits_memory : scalar; requests_memory : scalar }.

Record Container := {
  container_name : string;
  container_env : option (list EnvVar);
  container_resources : option Resources
}.

(** [funcs.spec]; [template] stands for
    [{ spec: { containers: [container] } }]. *)
Record Spec := {
  spec_deps : string;
  spec_function : string;
  spec_handler : string;
  spec_runtime : string;
  spec_template : option Container;
  spec_type : option string;
  spec_topic : option EventValue
}.

Record Metadata := {
  metadata_name : string;
  metadata_namespace : string;
  metadata_annotations : option (list (string * string));
  metadata_labels : option (list (string * string))
}.

Record ResourceDocument := {
  apiVersion : string;
  kind : string;
  metadata : Metadata;
  spec : Spec
}.

#[global] Instance EnvVar_eq_dec : EqDecision EnvVar.
Proof. solve_decision. Defined.
#[global] Instance Resources_eq_dec : EqDecision Resources.
Proof. solve_decision. Defined.
#[global] Instance Container_eq_dec : EqDecision Container.
Proof. solve_decision. Defined.
#[global] Instance Spec_eq_dec : EqDecision Spec.
Proof. solve_decision. Defined.

Definition set_type (t : string) (s : Spec) : Spec :=
  {| spec_deps := spec_deps s; spec_function := spec_function s;
     spec_handler := spec_handler s; spec_runtime := spec_runtime s;
     spec_template := spec_template s; spec_type := Some t;
     spec_topic := spec_topic s |}.

Definition set_topic (v : option EventValue) (s : Spec) : Spec :=
  {| spec_deps := spec_deps s; spec_function := spec_function s;
     spec_handler := spec_handler s; spec_runtime := spec_runtime s;
     spec_template := spec_template s; spec_type := spec_type s;
     spec_topic := v |}.

Definition with_spec (s : Spec) (d : ResourceDocument) : ResourceDocument :=
  {| apiVersion := apiVersion d; kind := kind d; metadata := metadata d;
     spec := s |}.

(** The memory value with its unit: "If no suffix is given we assume the
    unit will be `Mi`". *)
Definition memoryWithSuffix (memory : scalar) : scalar :=
  if match_digits_at_end (toString memory)
  then Str (toString memory +:+ "Mi")
  else memory.

Definition no_topic_error : string :=
  "You should specify a topic for the trigger event".

Definition unsupported_event_error (eventType : option string) : string :=
  "Event type " +:+ show_opt eventType +:+ " is not supported".

(** [env[key]] on the environment of a function, an object. *)
Fixpoint env_get (key : string) (env : list (string * scalar))
  : option scalar :=
  match env with
  | [] => None
  | (k, v) :: rest => if bool_decide (k = key) then Some v else env_get key rest
  end.

(** [_.isArrayLike(env)]: lodash takes an object whose [length] is a number
    that can be a length (every [Num] is one) for an array, and [_.each]
    then walks the indices below [length] instead of the own keys. *)
Definition isArrayLike (env : list (string * scalar)) : bool :=
  match env_get "length" env with
  | Some (Num _ _) => true
  | _ => false
  end.

(** The builder of the document.  The loop [_.each(env, (v, k) => ...)] is
    the one lodash runs on an object that it does not take for an array
    ([isArrayLike env = false]): every own key in order. *)
Definition getFunctionDescription
    (funcName namespace runtime : string) (deps : option string)
    (funcContent handler : string) (desc : option string)
    (labels : option (list (string * string)))
    (env : option (list (string * scalar))) (memory : option scalar)
    (eventType : option string) (eventTrigger : option EventValue)
  : result ResourceDocument :=
  let template :=
    if bool_decide (is_Some env) || truthy_opt memory then
      Some {| container_name := funcName;
              container_env :=
                match env with
                | Some e =>
                    Some (map (λ kv : string * scalar,
                                 {| env_name := kv.1;
                                    env_value := toString kv.2 |}) e)
                | None => None
                end;
              container_resources :=
                match memory with
                | Some m =>
                    if truthy m then
                      Some {| limits_memory := memoryWithSuffix m;
                              requests_memory := memoryWithSuffix m |}
                    else None
                | None => None
                end |}
    else None in
  let funcs :=
    {| apiVersion := "k8s.io/v1";
       kind := "Function";
       metadata :=
         {| metadata_name := funcName;
            metadata_namespace := namespace;
            metadata_annotations :=
              match desc with
              | Some d =>
                  if truthy_str desc
                  then Some [("kubeless.serverless.com/description", d)]
                  else None
              | None => None
              end;
            metadata_labels := labels |};
       spec :=
         {| spec_deps := if truthy_str deps then default "" deps else "";
            spec_function := funcContent;
            spec_handler := handler;
            spec_runtime := runtime;
            spec_template := template;
            spec_type := None;
            spec_topic := None |} |} in
  if bool_decide (eventType = Some "http") then
    Ok (with_spec (set_type "HTTP" (spec funcs)) funcs)
  else if bool_decide (eventType = Some "trigger") then
    let typed := set_type "PubSub" (spec funcs) in
    if isEmpty eventTrigger then Throw no_topic_error
    else Ok (with_spec (set_topic eventTrigger typed) funcs)
  else Throw (unsupported_event_error eventType).

(** *** The readiness poller, [waitForDeployment] *)

Record ContainerStatus := {
  ready : bool;
  restartCount : Z;
  state_json : string  (* JSON.stringify(state) *)
}.

Record Pod := {
  pod_labels : option (list (string * string));  (* metadata.labels *)
  creationTimestamp : Z;          (* moment(metadata.creationTimestamp) *)
  containerStatuses : option (list ContainerStatus)
}.

(** What [core.pods.get] hands to its callback. *)
Inductive PodsResponse :=
  | PodsErr (message : string)
  | PodsOk (items : list Pod).

(** The three places where the loop calls [clearInterval(loop)]. *)
Inductive Exit := GivenUp | Failed | Stable.

#[global] Instance Exit_eq_dec : EqDecision Exit.
Proof. solve_decision. Defined.

(** The variables of the loop, the exit code of the process (0 when not
    set) and the lines written with [serverless.cli.log], oldest first. *)
Record Poller := {
  retries : nat;
  successfulCount : nat;
  previousPodStatus : option (list string);  (* [None] is the initial '' *)
  cleared : option Exit;
  exitCode : Z;
  cli_log : list string
}.

Definition init_poller (exit : Z) : Poller :=
  {| retries := 0; successfulCount := 0; previousPodStatus := None;
     cleared := None; exitCode := exit; cli_log := [] |}.

Definition log_line (m : string) (st : Poller) : Poller :=
  {| retries := retries st; successfulCount := successfulCount st;
     previousPodStatus := previousPodStatus st; cleared := cleared st;
     exitCode := exitCode st; cli_log := cli_log st ++ [m] |}.

Definition clearInterval (e : Exit) (st : Poller) : Poller :=
  {| retries := retries st; successfulCount := successfulCount st;
     previousPodStatus := previousPodStatus st; cleared := Some e;
     exitCode := exitCode st; cli_log := cli_log st |}.

Definition set_retries (n : nat) (st : Poller) : Poller :=
  {| retries := n; successfulCount := successfulCount st;
     previousPodStatus := previousPodStatus st; cleared := cleared st;
     exitCode := exitCode st; cli_log := cli_log st |}.

Definition set_successfulCount (n : nat) (st : Poller) : Poller :=
  {| retries := retries st; successfulCount := n;
     previousPodStatus := previousPodStatus st; cleared := cleared st;
     exitCode := exitCode st; cli_log := cli_log st |}.

Definition set_previousPodStatus (p : list string) (st : Poller) : Poller :=
  {| retries := retries st; successfulCount := successfulCount st;
     previousPodStatus := Some p; cleared := cleared st;
     exitCode := exitCode st; cli_log := cli_log st |}.

(** [process.exitCode = process.exitCode || 1] *)
Definition set_exitCode_failure (st : Poller) : Poller :=
  {| retries := retries st; successfulCount := successfulCount st;
     previousPodStatus := previousPodStatus st; cleared := cleared st;
     exitCode := if bool_decide (exitCode st = 0%Z) then 1%Z else exitCode st;
     cli_log := cli_log st |}.

(** [pod.metadata.labels[key]] *)
Fixpoint label (key : string) (labels : list (string * string))
  : option string :=
  match labels with
  | [] => None
  | (k, v) :: rest => if bool_decide (k = key) then Some v else label key rest
  end.

(** The predicate of [_.filter(podsInfo.items, ...)]; reading a label of a
    pod without labels throws. *)
Definition is_function_pod (funcName : string) (requestMoment : Z) (pod : Pod)
  : result bool :=
  match pod_labels pod with
  | None => Throw "TypeError: Cannot read property 'function' of undefined"
  | Some labels =>
      Ok (bool_decide (label "function" labels = Some funcName)
          && bool_decide (requestMoment ≤ creationTimestamp pod)%Z)
  end.

Fixpoint filter_pods (funcName : string) (requestMoment : Z) (items : list Pod)
  : result (list Pod) :=
  match items with
  | [] => Ok []
  | pod :: rest =>
      keep ← is_function_pod funcName requestMoment pod;
      kept ← filter_pods funcName requestMoment rest;
      Ok (if keep : bool then pod :: kept else kept)
  end.

(** The body of [_.each(functionPods, pod => ...)] on the running-pods
    counter and the poller; the exception, if one is thrown, comes with the
    state reached before it. *)
Definition check_pod (pod : Pod) (acc : nat * Poller)
  : nat * Poller * option string :=
  match containerStatuses pod with
  | None => (acc, None)
  | Some [] =>
      (acc, Some "TypeError: Cannot read property 'ready' of undefined")
  | Some (status :: _) =>
      if ready status then (S acc.1, acc.2, None)
      else if bool_decide (2 < restartCount status)%Z then
        (acc.1,
         clearInterval Failed
           (set_exitCode_failure
              (log_line "ERROR: Failed to deploy the function" acc.2)),
         None)
      else (acc, None)
  end.

Fixpoint each_pod (pods : list Pod) (acc : nat * Poller)
  : nat * Poller * option string :=
  match pods with
  | [] => (acc, None)
  | pod :: rest =>
      match check_pod pod acc with
      | (acc', None) => each_pod rest acc'
      | thrown => thrown
      end
  end.

Definition pod_status (p : Pod) : string :=
  match containerStatuses p with
  | Some (status :: _) => state_json status
  | Some [] => "undefined"
  | None => "unknown"
  end.

(** The line with which the poller reports that the function is stable. *)
Definition success_line (funcName : string) : string :=
  "Function " +:+ funcName +:+ " succesfully deployed".

(** What follows the loop over the pods in a tick. *)
Definition after_pods (funcName : string) (verbose : bool)
    (functionPods : list Pod) (runningPods : nat) (st : Poller) : Poller :=
  if bool_decide (runningPods = length functionPods) then
    let st := set_successfulCount (S (successfulCount st)) st in
    if bool_decide (successfulCount st = 2) then
      clearInterval Stable (log_line (success_line funcName) st)
    else st
  else if verbose then
    let st := set_successfulCount 0 st in
    let currentPodStatus := map pod_status functionPods in
    if bool_decide (previousPodStatus st ≠ Some currentPodStatus) then
      set_previousPodStatus currentPodStatus
        (log_line ("Pods status: " +:+ join "," currentPodStatus) st)
    else st
  else st.

(** One firing of the interval together with the callback of its
    [core.pods.get] request: the new state and the exception thrown, if
    any. *)
Definition tick (funcName : string) (requestMoment : Z) (verbose : bool)
    (st : Poller) (response : PodsResponse) : Poller * option string :=
  if bool_decide (3 < retries st) then
    (clearInterval GivenUp
       (log_line ("Giving up, unable to retrieve the status of the "
                  +:+ funcName +:+ " deployment. ") st),
     None)
  else
    match response with
    | PodsErr message =>
        if includes "request timed out" message
        then (log_line "Request timed out. Retrying..." st, None)
        else (st, Some message)
    | PodsOk items =>
        match filter_pods funcName requestMoment items with
        | Throw e => (st, Some e)
        | Ok [] =>
            (log_line ("Unable to find any running pod for " +:+ funcName
                       +:+ ". Retrying...")
               (set_retries (S (retries st)) st),
             None)
        | Ok functionPods =>
            match each_pod functionPods (0, st) with
            | (_, st', Some e) => (st', Some e)
            | (runningPods, st', None) =>
                (after_pods funcName verbose functionPods runningPods st',
                 None)
            end
        end
    end.

(** The interval fires until it is cleared or an exception escapes; the
    responses of the successive [core.pods.get] requests are given in
    order. *)
Fixpoint waitForDeployment (funcName : string) (requestMoment : Z)
    (verbose : bool) (st : Poller) (responses : list PodsResponse)
  : Poller * option string :=
  match responses with
  | [] => (st, None)
  | response :: rest =>
      match cleared st with
      | Some _ => (st, None)
      | None =>
          match tick funcName requestMoment verbose st response with
          | (st', None) =>
              waitForDeployment funcName requestMoment verbose st' rest
          | thrown => thrown
          end
      end
  end.

(** *** The reconciler, [deployFunction] *)

(** [getIngressDescription]; [kind] is [Ingress], the backend port 8080. *)
Record IngressDocument := {
  ingress_name : string;
  ingress_labels : list (string * string);
  ingress_annotations : list (string * string);
  ingress_host : string;
  ingress_path : string;
  ingress_serviceName : string;
  ingress_servicePort : Z
}.

Definition getIngressDescription (funcName funcPath funcHost : string)
  : IngressDocument :=
  {| ingress_name := "ingress-" +:+ funcName;
     ingress_labels := [("function", funcName)];
     ingress_annotations :=
       [("kubernetes.io/ingress.class", "nginx");
        ("ingress.kubernetes.io/rewrite-target", "/")];
     ingress_host := funcHost;
     ingress_path := funcPath;
     ingress_serviceName := funcName;
     ingress_servicePort := 8080 |}.

(** The error object of a failed API call. *)
Record ApiError := { err_code : Z; err_message : string }.

(** The answers of the cluster to the calls of one reconciliation.  The
    functions are listed through the client of a namespace
    ([thirdPartyResources.ns.functions.get]): the list depends on it. *)
Record Cluster := {
  functions_get : string → ApiError + list ResourceDocument;
  functions_post : ResourceDocument → option ApiError;
  functions_put : string → ResourceDocument → option ApiError;
  ingress_post : IngressDocument → option ApiError
}.

(** What [../lib/helpers] and the API client derive from the kube
    configuration: the namespace of the connection options built for a
    requested namespace, which is also the one the client of the functions
    reports, and the host name of the API URL. *)
Record Helpers := {
  connection_namespace : option string → string;
  api_hostname : string
}.

Record Options := { force : bool; verbose : bool }.

Record Provider := {
  provider_runtime : string;
  provider_namespace : option string;
  provider_memorySize : option scalar;
  provider_hostname : option string
}.

(** One entry of [serverless.service.functions]. *)
Record FunctionDefinition := {
  fd_handler : option string;
  fd_namespace : option string;
  fd_events : option (list Event);
  fd_description : option string;
  fd_labels : option (list (string * string));
  fd_environment : option (list (string * scalar));
  fd_memorySize : option scalar
}.

(** What the deployment does to the outside, in the order it does it. *)
Inductive Action :=
  | CliLog (line : string)
  | ApiFunctionsGet
  | ApiFunctionsPost (body : ResourceDocument)
  | ApiFunctionsPut (name : string) (body : ResourceDocument)
  | StartPoller (funcName : string) (requestMoment : Z)
      (namespace : option string)
  | AddIngressRule (funcName : string) (eventType eventPath
      eventHostname : option string) (namespace : string)
  | ApiIngressPost (body : IngressDocument).

(** A rejection reason: an [Error] object or a plain string. *)
Inductive Rejection :=
  | ErrorObject (message : string)
  | Reason (text : string).

Definition show_rejection (r : Rejection) : string :=
  match r with
  | ErrorObject m => "Error: " +:+ m
  | Reason t => t
  end.

Inductive Settled (A : Type) :=
  | Resolved (a : A)
  | Rejected (r : Rejection).
Arguments Resolved {A} a.
Arguments Rejected {A} r.

(** [moment().milliseconds(0)] at clock reading [clock] (milliseconds). *)
Definition requestMoment_at (clock : Z) : Z := (clock - clock `mod` 1000)%Z.

Definition already_exists_line (name : string) : string :=
  "The function " +:+ name +:+ " already exists. "
  +:+ "Redeploy it usign --force or executing "
  +:+ dquote +:+ "sls deploy function -f " +:+ name +:+ dquote +:+ ".".

Definition show_code (code : Z) : string :=
  match code with
  | Zneg p => "-" +:+ NilZero.string_of_uint (Pos.to_uint p)
  | _ => NilZero.string_of_uint (N.to_uint (Z.to_N code))
  end.

Definition deployFunctionAndWait (clock : Z) (cluster : Cluster)
    (apiNamespace : string) (body : ResourceDocument)
  : list Action * Settled bool :=
  let requestMoment := requestMoment_at clock in
  let name := metadata_name (metadata body) in
  let start :=
    [CliLog ("Deploying function " +:+ name +:+ "..."); ApiFunctionsPost body]
  in
  match functions_post cluster body with
  | Some err =>
      if bool_decide (err_code err = 409%Z) then
        (start ++ [CliLog (already_exists_line name)], Resolved false)
      else
        (start,
         Rejected (ErrorObject
           ("Unable to deploy the function " +:+ name +:+ ". Received:"
            +:+ newline +:+ "  Code: " +:+ show_code (err_code err)
            +:+ newline +:+ "  Message: " +:+ err_message err)))
  | None =>
      (start ++ [StartPoller name requestMoment (Some apiNamespace)],
       Resolved true)
  end.

Definition redeployFunctionAndWait (clock : Z) (cluster : Cluster)
    (body : ResourceDocument) : list Action * Settled bool :=
  let requestMoment := requestMoment_at clock in
  let name := metadata_name (metadata body) in
  match functions_put cluster name body with
  | Some err =>
      ([ApiFunctionsPut name body],
       Rejected (ErrorObject
         ("Unable to update the function " +:+ name +:+ ". Received:"
          +:+ newline +:+ "  Code: " +:+ show_code (err_code err)
          +:+ newline +:+ "  Message: " +:+ err_message err)))
  | None =>
      ([ApiFunctionsPut name body; StartPoller name requestMoment None],
       Resolved true)
  end.

Definition startsWith (s prefix : string) : bool := String.prefix prefix s.

Definition addIngressRuleIfNecessary (opts : Options) (helpers : Helpers)
    (cluster : Cluster) (funcName : string)
    (eventType eventPath eventHostname : option string) (namespace : string)
  : list Action * Settled unit :=
  let fpath := default "/" (or_str eventPath (Some "/")) in
  let hostname :=
    default "" (or_str eventHostname
                  (Some (api_hostname helpers +:+ ".nip.io"))) in
  let call :=
    AddIngressRule funcName eventType eventPath eventHostname namespace in
  if bool_decide (eventType = Some "http")
     && ((negb (isEmpty_str eventPath) && bool_decide (eventPath ≠ Some "/"))
         || negb (isEmpty_str eventHostname))
  then
    let absolutePath := if startsWith fpath "/" then fpath else "/" +:+ fpath in
    let ingressDef := getIngressDescription funcName absolutePath hostname in
    match ingress_post cluster ingressDef with
    | Some err =>
        ([call; ApiIngressPost ingressDef],
         Rejected (Reason
           ("Unable to deploy the function " +:+ funcName
            +:+ " in the given path. " +:+ "Received: " +:+ err_message err)))
    | None =>
        ([call; ApiIngressPost ingressDef]
         ++ (if verbose opts
             then [CliLog ("Deployed Ingress rule to map " +:+ absolutePath)]
             else []),
         Resolved ())
    end
  else
    (call :: (if verbose opts
              then [CliLog "Skiping ingress rule generation"] else []),
     Resolved ()).

Record RuntimeFilenames := { file_handler : string; file_deps : string }.

(** [handler.toString().split('.')[0]] *)
Definition handler_module (handler : string) : string :=
  default "" (head (split "."%char handler)).

Definition getRuntimeFilenames (runtime handler : string)
  : result RuntimeFilenames :=
  if includes "python" runtime then
    Ok {| file_handler := handler_module handler +:+ ".py";
          file_deps := "requirements.txt" |}
  else if includes "node" runtime then
    Ok {| file_handler := handler_module handler +:+ ".js";
          file_deps := "package.json" |}
  else if includes "ruby" runtime then
    Ok {| file_handler := handler_module handler +:+ ".rb";
          file_deps := "Gemfile" |}
  else Throw ("The runtime " +:+ runtime +:+ " is not supported yet").

(** How the promise chain of one event ends: its last [then] ran, the
    chain was abandoned by an exception inside a [then], or an exception
    escaped from an API callback. *)
Inductive ChainEnd :=
  | Completed
  | Abandoned (e : string)
  | Crashed (e : string).

Record Chain := {
  actions : list Action;
  pushed : list Rejection;   (* what the chain added to [errors] *)
  chain_end : ChainEnd
}.

(** [existingFunction] and [existingSameFunction] after the loop over
    [functionsInfo.items]; [_.isEqual] is structural equality. *)
Definition existingFunction (items : list ResourceDocument)
    (funcs : ResourceDocument) : bool :=
  existsb (λ item, bool_decide (metadata_name (metadata item)
                                = metadata_name (metadata funcs))) items.

Definition existingSameFunction (items : list ResourceDocument)
    (funcs : ResourceDocument) : bool :=
  existsb (λ item, bool_decide (metadata_name (metadata item)
                                = metadata_name (metadata funcs))
                   && bool_decide (spec item = spec funcs)) items.

(** [event[eventType].path] and [.hostname]; both throw on [null]. *)
Definition event_path (v : EventValue) : result (option string) :=
  match v with
  | EvNull => Throw "TypeError: Cannot read property 'path' of null"
  | EvStr _ => Ok None
  | EvObj path _ => Ok path
  end.

Definition event_hostname (v : EventValue) : result (option string) :=
  match v with
  | EvNull => Throw "TypeError: Cannot read property 'hostname' of null"
  | EvStr _ => Ok None
  | EvObj _ hostname => Ok hostname
  end.

(** The [then] that follows the deployment promise: the ingress rule. *)
Definition ingress_step (opts : Options) (provider : Provider)
    (helpers : Helpers) (cluster : Cluster) (name : string) (event : Event)
    (namespace : string) (deployed redeployed : bool)
  : list Action * Settled unit :=
  if negb deployed || redeployed then ([], Resolved ())
  else
    let eventType := first_key event in
    match get_key (show_opt eventType) event with
    | None =>
        ([], Rejected (ErrorObject
               ("Wrong defintion for the event [object Object]. "
                +:+ "Expecting an Object with valid keys.")))
    | Some v =>
        match event_path v with
        | Throw e => ([], Rejected (Reason e))
        | Ok path =>
            if truthy_str (provider_hostname provider) then
              addIngressRuleIfNecessary opts helpers cluster name eventType
                path (provider_hostname provider) namespace
            else
              match event_hostname v with
              | Throw e => ([], Rejected (Reason e))
              | Ok hostname =>
                  addIngressRuleIfNecessary opts helpers cluster name
                    eventType path hostname namespace
              end
        end
    end.

(** The namespace of the connection options of a function. *)
Definition function_namespace (provider : Provider) (helpers : Helpers)
    (description : FunctionDefinition) : string :=
  connection_namespace helpers
    (or_str (fd_namespace description) (provider_namespace provider)).

(** [funcs], the document built for one event of a function. *)
Definition funcs_of_event (provider : Provider) (helpers : Helpers)
    (name : string) (description : FunctionDefinition)
    (functionContent : string) (requirementsContent : option string)
    (event : Event) : result ResourceDocument :=
  getFunctionDescription name
    (function_namespace provider helpers description)
    (provider_runtime provider)
    requirementsContent functionContent
    (default "" (fd_handler description))
    (fd_description description) (fd_labels description)
    (fd_environment description)
    (if truthy_opt (fd_memorySize description)
     then fd_memorySize description
     else provider_memorySize provider)
    (first_key event) (get_key "trigger" event).

(** The body of [_.each(events, event => ...)] up to [counter++]. *)
Definition deployEvent (opts : Options) (provider : Provider)
    (helpers : Helpers) (cluster : Cluster) (clock : Z) (name : string)
    (description : FunctionDefinition)
    (functionContent : string) (requirementsContent : option string)
    (event : Event) : Chain :=
  let namespace := function_namespace provider helpers description in
  match funcs_of_event provider helpers name description functionContent
          requirementsContent event with
  | Throw e => {| actions := []; pushed := []; chain_end := Abandoned e |}
  | Ok funcs =>
      match functions_get cluster namespace with
      | inl err =>
          {| actions := [ApiFunctionsGet]; pushed := [];
             chain_end := Crashed (err_message err) |}
      | inr items =>
          let '(submission, redeployed) :=
            if existingSameFunction items funcs then
              (([CliLog ("Function " +:+ name
                         +:+ " has not changed. Skipping deployment")],
                Resolved false), false)
            else if existingFunction items funcs && force opts then
              (redeployFunctionAndWait clock cluster funcs, true)
            else
              (deployFunctionAndWait clock cluster namespace funcs, false) in
          let deployed :=
            match submission.2 with
            | Resolved b => b
            | Rejected _ => false
            end in
          let deploymentErrs :=
            match submission.2 with
            | Resolved _ => []
            | Rejected r => [r]
            end in
          let ingress :=
            ingress_step opts provider helpers cluster name event namespace
              deployed redeployed in
          let ingressErrs :=
            match ingress.2 with
            | Resolved _ => []
            | Rejected r => [r]
            end in
          {| actions := ApiFunctionsGet :: submission.1 ++ ingress.1;
             pushed := deploymentErrs ++ ingressErrs;
             chain_end := Completed |}
      end
  end.

(** The state of one [deployFunction] call. *)
Record Deployment := {
  trace : list Action;
  errors : list Rejection;
  counter : nat;
  settled : option (Settled unit);  (* the promise [deployFunction] returns *)
  crashed : option string
}.

Definition init_deployment : Deployment :=
  {| trace := []; errors := []; counter := 0; settled := None;
     crashed := None |}.

(** The last [then] of a chain: [counter++] and, when every function has
    been counted, the promise is settled (only the first time counts). *)
Definition count_chain (total : nat) (d : Deployment) : Deployment :=
  let counter' := S (counter d) in
  {| trace := trace d; errors := errors d; counter := counter';
     settled :=
       match settled d with
       | Some s => Some s
       | None =>
           if bool_decide (counter' = total) then
             match errors d with
             | [] => Some (Resolved ())
             | errs =>
                 Some (Rejected (Reason
                   ("Found errors while deploying the given functions:"
                    +:+ newline
                    +:+ join newline (map show_rejection errs))))
             end
           else None
       end;
     crashed := crashed d |}.

Definition run_chain (total : nat) (c : Chain) (d : Deployment) : Deployment :=
  let d' :=
    {| trace := trace d ++ actions c; errors := errors d ++ pushed c;
       counter := counter d; settled := settled d;
       crashed := match chain_end c with
                  | Crashed e => Some e
                  | _ => crashed d
                  end |} in
  match chain_end c with
  | Completed => count_chain total d'
  | _ => d'
  end.

(** The events of one function, in order; an exception ends the loop. *)
Fixpoint deployEvents (total : nat) (chain : Event → Chain)
    (events : list Event) (d : Deployment) : Deployment :=
  match events with
  | [] => d
  | event :: rest =>
      let c := chain event in
      let d' := run_chain total c d in
      match chain_end c with
      | Completed => deployEvents total chain rest d'
      | _ => d'
      end
  end.

Definition default_events : list Event :=
  [[("http", EvObj (Some "/") None)]].

(** [!_.isEmpty(description.events) ? description.events : [...]] *)
Definition events_of (description : FunctionDefinition) : list Event :=
  match fd_events description with
  | Some (e :: es) => e :: es
  | _ => default_events
  end.

(** The body of [_.each(this.serverless.service.functions, ...)] for one
    function; [files] gives the content of a file of the package, if it
    can be read.  A [Throw] is an exception inside the executor of the
    promise. *)
Definition deployOne (opts : Options) (provider : Provider)
    (helpers : Helpers) (cluster : Cluster) (clock : Z)
    (files : string → option string) (total : nat)
    (name : string) (description : FunctionDefinition) (d : Deployment)
  : result Deployment :=
  if truthy_str (fd_handler description) then
    let handler := default "" (fd_handler description) in
    names ← getRuntimeFilenames (provider_runtime provider) handler;
    match files (file_handler names) with
    | None => Ok d
    | Some functionContent =>
        Ok (deployEvents total
              (deployEvent opts provider helpers cluster clock name
                 description functionContent (files (file_deps names)))
              (events_of description) d)
    end
  else
    Ok {| trace := trace d
            ++ [CliLog ("Skipping deployment of " +:+ name
                        +:+ " since it doesn't have a handler")];
          errors := errors d; counter := counter d; settled := settled d;
          crashed := crashed d |}.

(** [deployFunction]: the functions of the service in order.  The chains
    of different functions are independent; they are run one after the
    other here. *)
Fixpoint deployFunctions (opts : Options) (provider : Provider)
    (helpers : Helpers) (cluster : Cluster) (clock : Z)
    (files : string → option string) (total : nat)
    (functions : list (string * FunctionDefinition)) (d : Deployment)
  : Deployment :=
  match functions with
  | [] => d
  | (name, description) :: rest =>
      match crashed d with
      | Some _ => d
      | None =>
          match deployOne opts provider helpers cluster clock files total
                  name description d with
          | Throw e =>
              {| trace := trace d; errors := errors d; counter := counter d;
                 settled := match settled d with
                            | Some s => Some s
                            | None => Some (Rejected (ErrorObject e))
                            end;
                 crashed := crashed d |}
          | Ok d' =>
              deployFunctions opts provider helpers cluster clock files total
                rest d'
          end
      end
  end.

Definition deployFunction (opts : Options) (provider : Provider)
    (helpers : Helpers) (cluster : Cluster) (clock : Z)
    (files : string → option string)
    (functions : list (string * FunctionDefinition)) : Deployment :=
  deployFunctions opts provider helpers cluster clock files
    (length functions) functions init_deployment.

Definition is_ingress_call (a : Action) : bool :=
  match a with
  | AddIngressRule _ _ _ _ _ => true
  | _ => false
  end.

Definition is_ingress_post (a : Action) : bool :=
  match a with
  | ApiIngressPost _ => true
  | _ => false
  end.

(** One function event from the reconciliation to the end of its poller.
    The interval of the poller first fires two seconds after
    [waitForDeployment] is called, and a timer callback runs only between
    other callbacks; the continuations of the deployment promise have run
    by then, so the lines of the poller follow the actions of the chain. *)
Definition poller_actions (opts : Options) (exit : Z)
    (responses : list PodsResponse) (a : Action) : list Action :=
  match a with
  | StartPoller funcName requestMoment _ =>
      map CliLog
        (cli_log (waitForDeployment funcName requestMoment (verbose opts)
                    (init_poller exit) responses).1)
  | _ => []
  end.

Definition session (opts : Options) (exit : Z) (c : Chain)
    (responses : list PodsResponse) : list Action :=
  actions c ++ flat_map (poller_actions opts exit responses) (actions c).

(** [validate]: a function with more than one event source is refused.
    (The warning about unsupported options is left to [../lib/helpers].) *)
Definition more_than_one_event (description : FunctionDefinition) : bool :=
  match fd_events description with
  | Some events => bool_decide (1 < length events)
  | None => false
  end.

Definition validate (functions : list (string * FunctionDefinition))
  : result unit :=
  if existsb (λ f, more_than_one_event f.2) functions
  then Throw "It is not supported to have more than one event source yet"
  else Ok ().

Definition is_submission (a : Action) : bool :=
  match a with
  | ApiFunctionsPost _ | ApiFunctionsPut _ _ => true
  | _ => false
  end.

Definition is_poller_start (a : Action) : bool :=
  match a with
  | StartPoller _ _ _ => true
  | _ => false
  end.

(** The events for which the switch of [getFunctionDescription] does not
    throw. *)
Definition event_supported (event : Event) : bool :=
  bool_decide (first_key event = Some "http")
  || (bool_decide (first_key event = Some "trigger")
      && negb (isEmpty (get_key "trigger" event))).

(** What holds of a poller of [funcName] that was started when the exit
    code of the process was [exit], after any number of ticks. *)
Definition poller_invariant (funcName : string) (exit : Z) (st : Poller)
  : Prop :=
  retries st ≤ 4
  ∧ successfulCount st ≤ 2
  ∧ (cleared st = Some Stable ↔ successfulCount st = 2)
  ∧ (cleared st = Some Stable ↔ success_line funcName ∈ cli_log st)
  ∧ (cleared st = Some GivenUp → retries st = 4)
  ∧ (cleared st = Some Failed →
     exitCode st = if bool_decide (exit = 0%Z) then 1%Z else exit)
  ∧ (cleared st ≠ Some Failed → exitCode st = exit).

End KubelessDeploy.

(** ** logs/kubelessLogs.js *)

Module KubelessLogs.
Import Js.

(** The calls to the [moment] library; [None] stands for the [NaN] that
    [valueOf()] gives for an invalid date. *)
Class Moment := {
  (** [moment(text).valueOf()] *)
  moment_parse : string → option Z;
  (** [moment(text, format).valueOf()] *)
  moment_parse_format : string → string → option Z;
  (** [moment().subtract(amount, unit).valueOf()] *)
  moment_subtract : string → string → option Z
}.

(** [entry.match(pattern)] is truthy, for the pattern of the [filter]
    option; the regular-expression engine is external. *)
Class Regex := { regex_match : string → string → bool }.

Record LogFilterOptions := {
  startTime : option string;
  count : option Z;
  filter : option string
}.

(** The options after [_.defaults] when none is given. *)
Definition no_options : LogFilterOptions :=
  {| startTime := None; count := None; filter := None |}.

(** [l.slice(start)] *)
Definition slice {A} (start : Z) (l : list A) : list A :=
  let len := Z.of_nat (length l) in
  let k := if bool_decide (start < 0)%Z
           then Z.max (len + start) 0
           else Z.min start len in
  drop (Z.to_nat k) l.

(** [_.findIndex(l, p)]: the index of the first element that satisfies
    [p], or -1. *)
Fixpoint findIndex {A} (p : A → bool) (l : list A) : Z :=
  match l with
  | [] => (-1)%Z
  | x :: rest =>
      if p x then 0%Z
      else let i := findIndex p rest in
           if bool_decide (i = -1)%Z then (-1)%Z else (i + 1)%Z
  end.

(** The pieces of the time-stamp pattern: a digit, a letter, a given
    character. *)
Inductive Token := Digit | Letter | Char (c : ascii).

Definition token_ok (t : Token) (c : ascii) : bool :=
  match t with
  | Digit => is_digit c
  | Letter => is_alpha c
  | Char c' => bool_decide (c = c')
  end.

(** The text matched by a sequence of tokens at the start of [s]. *)
Fixpoint match_tokens (tokens : list Token) (s : string) : option string :=
  match tokens with
  | [] => Some ""
  | t :: ts =>
      match s with
      | EmptyString => None
      | String c s' =>
          if token_ok t c then String c <$> match_tokens ts s' else None
      end
  end.

(** [\d{2}\/[a-zA-Z]{3}\/\d{4}:\d{2}:\d{2}:\d{2} \+\d{4}] *)
Definition timestamp_tokens : list Token :=
  [Digit; Digit; Char "/"; Letter; Letter; Letter; Char "/";
   Digit; Digit; Digit; Digit; Char ":"; Digit; Digit; Char ":";
   Digit; Digit; Char ":"; Digit; Digit; Char " "; Char "+";
   Digit; Digit; Digit; Digit].

(** [-\d{4}], the second branch of the alternation. *)
Definition offset_tokens : list Token :=
  [Char "-"; Digit; Digit; Digit; Digit].

(** [entry.match(/(...|-\d{4})/)]: group 1 of the leftmost match, the
    first branch being tried first at each position. *)
Fixpoint entryDate (entry : string) : option string :=
  match match_tokens timestamp_tokens entry with
  | Some m => Some m
  | None =>
      match match_tokens offset_tokens entry with
      | Some m => Some m
      | None =>
          match entry with
          | EmptyString => None
          | String _ rest => entryDate rest
          end
      end
  end.

Fixpoint keep_chars (p : ascii → bool) (s : string) : string :=
  match s with
  | EmptyString => EmptyString
  | String c s' => if p c then String c (keep_chars p s') else keep_chars p s'
  end.

(** [s.match(/(?:m|h|d)/)] is truthy. *)
Definition since (s : string) : bool :=
  includes "m" s || includes "h" s || includes "d" s.

Section Filter.
Context `{Moment} `{Regex}.

(** The instant [startTime] stands for. *)
Definition startMoment (startTime : string) : option Z :=
  if since startTime then
    moment_subtract (keep_chars is_digit startTime)
                    (keep_chars (λ c, negb (is_digit c)) startTime)
  else moment_parse startTime.

(** [a >= b] on numbers that may be [NaN]. *)
Definition ge_number (a b : option Z) : bool :=
  match a, b with
  | Some x, Some y => bool_decide (y ≤ x)%Z
  | _, _ => false
  end.

(** The predicate of [_.findIndex(logEntries, ...)]. *)
Definition at_or_after (start : option Z) (entry : string) : bool :=
  match entryDate entry with
  | Some date =>
      ge_number (moment_parse_format date "DD/MMM/YYYY:HH:mm:ss Z") start
  | None => false
  end.

Definition count_filter (opts : LogFilterOptions) (logEntries : list string)
  : list string :=
  match count opts with
  | Some n =>
      if bool_decide (n ≠ 0)%Z
      then slice (Z.of_nat (length logEntries) - n) logEntries
      else logEntries
  | None => logEntries
  end.

Definition pattern_filter (opts : LogFilterOptions)
    (logEntries : list string) : list string :=
  match filter opts with
  | Some pattern =>
      if bool_decide (pattern ≠ "")
      then List.filter (λ entry, regex_match entry pattern) logEntries
      else logEntries
  | None => logEntries
  end.

Definition time_filter (opts : LogFilterOptions) (logEntries : list string)
  : list string :=
  match startTime opts with
  | Some start =>
      if bool_decide (start ≠ "") then
        let logIndex := findIndex (at_or_after (startMoment start)) logEntries in
        if bool_decide (-1 < logIndex)%Z then slice logIndex logEntries
        else []
      else logEntries
  | None => logEntries
  end.

Definition filterLogs (logs : string) (opts : LogFilterOptions) : string :=
  let logEntries := compact (split "010"%char logs) in
  let logEntries := count_filter opts logEntries in
  let logEntries := pattern_filter opts logEntries in
  let logEntries := time_filter opts logEntries in
  join newline logEntries.

End Filter.

(** [validate]: the function of the command line must be one of the
    service. *)
Definition validate {A} (functions : list (string * A)) (function : string)
  : result unit :=
  if existsb (λ f, bool_decide (f.1 = function)) functions then Ok ()
  else Throw ("The function " +:+ function
              +:+ " is not present in the current description").

(** A pod as [printLogs] reads it. *)
Record LogPod := {
  logpod_name : string;                             (* metadata.name *)
  logpod_labels : option (list (string * string))   (* metadata.labels *)
}.

(** The answers of the cluster to [core.ns.pods.get] and to the log
    request of each pod; [None] is a log that is [undefined]. *)
Record LogsCluster := {
  pods_get : KubelessDeploy.ApiError + list LogPod;
  pod_log : string → KubelessDeploy.ApiError + option string
}.

Inductive LogAction :=
  | ApiPodsGet
  | ApiPodLog (podName : string)
  | ConsoleLog (text : string).

(** The run of [printLogs] without [--tail]: what it did, the promise it
    returned ([None] while it is not settled) and the exception that
    escaped from a callback, if any. *)
Record LogsRun := {
  log_actions : list LogAction;
  log_settled : option (KubelessDeploy.Settled string);
  log_thrown : option string
}.

(** The predicate of [_.filter(podsInfo.items, ...)]. *)
Definition is_function_logpod (function : string) (pod : LogPod)
  : result bool :=
  match logpod_labels pod with
  | None => Throw "TypeError: Cannot read property 'function' of undefined"
  | Some labels =>
      Ok (bool_decide (KubelessDeploy.label "function" labels = Some function))
  end.

Fixpoint filter_logpods (function : string) (items : list LogPod)
  : result (list LogPod) :=
  match items with
  | [] => Ok []
  | pod :: rest =>
      keep ← is_function_logpod function pod;
      kept ← filter_logpods function rest;
      Ok (if keep : bool then pod :: kept else kept)
  end.

Definition pod_not_found (function : string) : string :=
  "Unable to find the pod for the function " +:+ function +:+ ". "
  +:+ "Please ensure that there is a function deployed with that ID".

Section Print.
Context `{Moment} `{Regex}.

(** [printFilteredLogs]: what is written to the console and the text that
    is returned. *)
Definition printFilteredLogs (logs : string) (opts : LogFilterOptions)
    (silent : bool) : list LogAction * string :=
  let filteredLogs := filterLogs logs opts in
  (if bool_decide (filteredLogs ≠ "") && negb silent
   then [ConsoleLog filteredLogs] else [],
   filteredLogs).

(** The callbacks of the log requests without [--tail], answered in the
    order of the pods; only the first [resolve] settles the promise, and an
    exception in a callback ends the run. *)
Fixpoint log_callbacks (cluster : LogsCluster) (opts : LogFilterOptions)
    (silent : bool) (functionPods : list LogPod) (run : LogsRun) : LogsRun :=
  match functionPods with
  | [] => run
  | pod :: rest =>
      match pod_log cluster (logpod_name pod) with
      | inl errLog =>
          {| log_actions := log_actions run; log_settled := log_settled run;
             log_thrown := Some (KubelessDeploy.err_message errLog) |}
      | inr logs =>
          let printed := printFilteredLogs (default "" logs) opts silent in
          log_callbacks cluster opts silent rest
            {| log_actions := log_actions run ++ printed.1;
               log_settled :=
                 match log_settled run with
                 | Some settled => Some settled
                 | None => Some (KubelessDeploy.Resolved printed.2)
                 end;
               log_thrown := None |}
      end
  end.

(** [printLogs] without [--tail]: the pods are listed, the log of each pod
    of the function is requested, then the callbacks run. *)
Definition printLogs (cluster : LogsCluster) (function : string)
    (opts : LogFilterOptions) (silent : bool) : LogsRun :=
  match pods_get cluster with
  | inl err =>
      {| log_actions := [ApiPodsGet]; log_settled := None;
         log_thrown := Some (KubelessDeploy.err_message err) |}
  | inr items =>
      match filter_logpods function items with
      | Throw e =>
          {| log_actions := [ApiPodsGet]; log_settled := None;
             log_thrown := Some e |}
      | Ok [] =>
          {| log_actions := [ApiPodsGet];
             log_settled :=
               Some (KubelessDeploy.Rejected
                       (KubelessDeploy.Reason (pod_not_found function)));
             log_thrown := None |}
      | Ok functionPods =>
          log_callbacks cluster opts silent functionPods
            {| log_actions :=
                 ApiPodsGet
                 :: map (λ pod, ApiPodLog (logpod_name pod)) functionPods;
               log_settled := None;
               log_thrown := None |}
      end
  end.

End Print.

End KubelessLogs.

(** ** Sample inputs *)

Module Samples.
Import Js KubelessDeploy.

Definition options (forced chatty : bool) : Options :=
  {| force := forced; verbose := chatty |}.

Definition provider (hostname : option string) : Provider :=
  {| provider_runtime := "python2.7"; provider_namespace := None;
     provider_memorySize := None; provider_hostname := hostname |}.

Definition helpers : Helpers :=
  {| connection_namespace := λ requested, default "default" requested;
     api_hostname := "192.168.99.100" |}.

Definition files (path : string) : option string :=
  if bool_decide (path = "handler.py") then Some "def hello(): pass"
  else None.

(** A function [hello] with handler [handler.hello]. *)
Definition hello (events : option (list Event)) : FunctionDefinition :=
  {| fd_handler := Some "handler.hello"; fd_namespace := None;
     fd_events := events; fd_description := None; fd_labels := None;
     fd_environment := None; fd_memorySize := None |}.

(** The document of [hello] for an [http] event, as the cluster stores
    it, with a given source text and description. *)
Definition hello_document (content : string)
    (annotations : option (list (string * string))) : ResourceDocument :=
  {| apiVersion := "k8s.io/v1"; kind := "Function";
     metadata :=
       {| metadata_name := "hello"; metadata_namespace := "default";
          metadata_annotations := annotations; metadata_labels := None |};
     spec :=
       {| spec_deps := ""; spec_function := content;
          spec_handler := "handler.hello"; spec_runtime := "python2.7";
          spec_template := None; spec_type := Some "HTTP";
          spec_topic := None |} |}.

Definition conflict : ApiError :=
  {| err_code := 409; err_message := "functions hello already exists" |}.

Definition cluster (items : list ResourceDocument)
    (postAnswer : option ApiError) : Cluster :=
  {| functions_get := λ _, inr items;
     functions_post := λ _, postAnswer;
     functions_put := λ _ _, None;
     ingress_post := λ _, None |}.

Definition clock : Z := 1504605600123.

Definition hello_pod (isReady : bool) (restarts : Z) : Pod :=
  {| pod_labels := Some [("function", "hello")];
     creationTimestamp := 1504605601000;
     containerStatuses :=
       Some [{| ready := isReady; restartCount := restarts;
                state_json := "{}" |}] |}.

(** The answers of [moment] on the texts of the sample log: three
    instants of 5 September 2017 (UTC), in milliseconds. *)
Definition moment_table (text : string) : option Z :=
  if bool_decide (text = "05/Sep/2017:09:59:00 +0000") then Some 1504605540000%Z
  else if bool_decide (text = "05/Sep/2017:10:00:30 +0000")
  then Some 1504605630000%Z
  else if bool_decide (text = "2017-09-05T10:00:00Z") then Some 1504605600000%Z
  else None.

(** [moment().subtract(amount, unit)] at the instant [clock]: hours,
    minutes and days are subtracted, another unit subtracts nothing. *)
Definition moment_ago (amount unit : string) : option Z :=
  n ← NilEmpty.uint_of_string amount;
  let milliseconds :=
    if bool_decide (unit = "h") then 3600000%Z
    else if bool_decide (unit = "m") then 60000%Z
    else if bool_decide (unit = "d") then 86400000%Z
    else 0%Z in
  Some (clock - Z.of_N (N.of_uint n) * milliseconds)%Z.

Definition sample_moment : KubelessLogs.Moment :=
  {| KubelessLogs.moment_parse := moment_table;
     KubelessLogs.moment_parse_format := λ text _, moment_table text;
     KubelessLogs.moment_subtract := moment_ago |}.

Definition sample_regex : KubelessLogs.Regex :=
  {| KubelessLogs.regex_match := λ entry pattern, includes pattern entry |}.

Definition sample_log : string :=
  "10.0.0.1 - - [05/Sep/2017:09:59:00 +0000] GET / 200" +:+ newline
  +:+ newline
  +:+ "10.0.0.1 - - [05/Sep/2017:10:00:30 +0000] GET / 500" +:+ newline
  +:+ "Traceback (most recent call last):" +:+ newline.

End Samples.

(** * Properties *)

(** ** Strings and lists *)

Module JsFacts.
Import Js.

Lemma match_digits_at_end_unfold (s : string) :
  match_digits_at_end s
  = digits_to_end s
    || match s with
       | EmptyString => false
       | String _ s' => match_digits_at_end s'
       end.
Proof. destruct s; reflexivity. Qed.

Lemma digits_to_end_match (s : string) :
  digits_to_end s = true → match_digits_at_end s = true.
Proof. intros H. rewrite match_digits_at_end_unfold, H. reflexivity. Qed.

Lemma last_char_cons (a : ascii) (s : string) :
  s ≠ "" → last_char (String a s) = last_char s.
Proof. destruct s; [congruence | reflexivity]. Qed.

(** The search for [/\d+$/] succeeds exactly when the text ends in a
    digit. *)
Lemma match_digits_at_end_last (s : string) :
  match_digits_at_end s = true ↔ ∃ c, last_char s = Some c ∧ is_digit c = true.
Proof.
  induction s as [|a s IH].
  - simpl. split; [discriminate | intros (c & Hc & _); discriminate].
  - destruct s as [|b s'].
    + rewrite match_digits_at_end_unfold.
      change (match_digits_at_end "") with false.
      unfold digits_to_end. cbn [all_digits last_char].
      rewrite bool_decide_eq_true_2 by discriminate.
      rewrite andb_true_l, andb_true_r, orb_false_r. split.
      * intros Ha. exists a. split; [reflexivity | assumption].
      * intros (c & Hc & Hd). congruence.
    + rewrite last_char_cons by discriminate. rewrite <- IH.
      rewrite (match_digits_at_end_unfold (String a _)).
      split.
      * intros [Hd | Hm]%orb_true_iff; [|assumption].
        apply digits_to_end_match. unfold digits_to_end in *.
        cbn [all_digits] in Hd. apply andb_true_iff in Hd as [_ Hd].
        apply andb_true_iff in Hd as [_ Hd].
        rewrite bool_decide_eq_true_2 by discriminate. exact Hd.
      * intros ->. apply orb_true_r.
Qed.

Lemma match_digits_at_end_false (s : string) (c : ascii) :
  last_char s = Some c → is_digit c = false → match_digits_at_end s = false.
Proof.
  intros Hl Hc. apply not_true_is_false. intros Hm.
  apply match_digits_at_end_last in Hm as (c' & Hl' & Hc'). congruence.
Qed.

Lemma match_digits_at_end_ends (s : string) :
  match_digits_at_end s = ends_in_digit s.
Proof.
  unfold ends_in_digit. destruct (last_char s) as [c|] eqn:Hl.
  - destruct (is_digit c) eqn:Hc.
    + apply match_digits_at_end_last. eauto.
    + eapply match_digits_at_end_false; eauto.
  - apply not_true_is_false. intros (c & Hc & _)%match_digits_at_end_last.
    congruence.
Qed.

Lemma all_digits_NilEmpty (d : Decimal.uint) :
  all_digits (NilEmpty.string_of_uint d) = true.
Proof. induction d; simpl; auto. Qed.

Lemma toString_Num_digits (n : N) (safe : Is_true (n <=? MAX_SAFE_INTEGER)%N) :
  digits_to_end (toString (Num n safe)) = true.
Proof.
  unfold digits_to_end, toString, NilZero.string_of_uint.
  destruct (N.to_uint n) eqn:E; try reflexivity;
    rewrite all_digits_NilEmpty, andb_true_r;
    apply bool_decide_eq_true_2; discriminate.
Qed.

(** Joining the pieces of a split gives the text back. *)
Lemma split_nonempty (c : ascii) (s : string) : split c s ≠ [].
Proof.
  destruct s as [|a s]; simpl; [discriminate|].
  case_bool_decide; [discriminate|]. destruct (split c s); discriminate.
Qed.

Lemma join_cons_cons (sep x y : string) (l : list string) :
  join sep (x :: y :: l) = x +:+ sep +:+ join sep (y :: l).
Proof. reflexivity. Qed.

Lemma join_String (sep : string) (a : ascii) (y : string) (l : list string) :
  join sep (String a y :: l) = String a (join sep (y :: l)).
Proof. destruct l; reflexivity. Qed.

Lemma join_split (c : ascii) (s : string) :
  join (String c "") (split c s) = s.
Proof.
  induction s as [|a s IH]; [reflexivity|].
  pose proof (split_nonempty c s) as Hne.
  cbn [split]. destruct (split c s) as [|y l]; [congruence|].
  case_bool_decide as Hac.
  - subst a. rewrite join_cons_cons, IH. reflexivity.
  - rewrite join_String, IH. reflexivity.
Qed.

Lemma compact_id (l : list string) :
  (∀ x, x ∈ l → x ≠ "") → compact l = l.
Proof.
  unfold compact. induction l as [|x l IH]; intros Hall; [reflexivity|].
  rewrite filter_cons_True by (apply Hall; left).
  f_equal. apply IH. intros y Hy. apply Hall. by right.
Qed.

Lemma includes_char (c a : ascii) (s : string) :
  includes (String c "") (String a s)
  = bool_decide (a = c) || includes (String c "") s.
Proof.
  cbn [includes String.prefix].
  destruct (Ascii.ascii_dec c a) as [-> | Hne].
  - rewrite bool_decide_eq_true_2 by reflexivity. by destruct s.
  - rewrite bool_decide_eq_false_2 by congruence. reflexivity.
Qed.

Lemma split_no_separator (c : ascii) (x : string) :
  includes (String c "") x = false → split c x = [x].
Proof.
  induction x as [|a x IH]; [reflexivity|].
  rewrite includes_char. intros [Ha Hx]%orb_false_iff.
  apply bool_decide_eq_false in Ha.
  cbn [split]. rewrite bool_decide_eq_false_2 by assumption.
  rewrite (IH Hx). reflexivity.
Qed.

Lemma split_app_separator (c : ascii) (x rest : string) :
  includes (String c "") x = false →
  split c (x +:+ String c rest) = x :: split c rest.
Proof.
  induction x as [|a x IH].
  - intros _. change ("" +:+ String c rest) with (String c rest).
    cbn [split]. rewrite bool_decide_eq_true_2 by reflexivity. reflexivity.
  - rewrite includes_char. intros [Ha Hx]%orb_false_iff.
    apply bool_decide_eq_false in Ha.
    change (String a x +:+ String c rest)
      with (String a (x +:+ String c rest)).
    cbn [split]. rewrite bool_decide_eq_false_2 by assumption.
    rewrite (IH Hx). reflexivity.
Qed.

(** Splitting what was joined gives the pieces back, when there is a piece
    and no piece holds the separator. *)
Lemma split_join (c : ascii) (l : list string) :
  l ≠ [] →
  Forall (λ x, includes (String c "") x = false) l →
  split c (join (String c "") l) = l.
Proof.
  intros Hne Hall. induction Hall as [|x l Hx Hl IH]; [done|].
  destruct l as [|y l].
  - cbn. by apply split_no_separator.
  - rewrite join_cons_cons.
    change (x +:+ String c "" +:+ join (String c "") (y :: l))
      with (x +:+ String c (join (String c "") (y :: l))).
    rewrite split_app_separator by assumption.
    rewrite IH by discriminate. reflexivity.
Qed.

Lemma split_pieces (c : ascii) (s : string) :
  Forall (λ x, includes (String c "") x = false) (split c s).
Proof.
  induction s as [|a s IH]; [repeat constructor|].
  cbn [split]. case_bool_decide as Hac.
  - constructor; [reflexivity | assumption].
  - destruct (split c s) as [|piece pieces]; [repeat constructor|].
    + rewrite includes_char, bool_decide_eq_false_2 by assumption.
      reflexivity.
    + inversion_clear IH as [|? ? Hp Hps]. constructor; [|assumption].
      rewrite includes_char, Hp, bool_decide_eq_false_2 by assumption.
      reflexivity.
Qed.

(** [_.compact] keeps the order, keeps every text that is not empty as
    often as it occurs, and is the filter of the Standard Library on that
    test. *)
Lemma compact_filter (l : list string) :
  compact l = List.filter (λ line, negb (line =? "")%string) l.
Proof.
  unfold compact. induction l as [|x l IH]; [reflexivity|].
  rewrite filter_cons. cbn [List.filter].
  destruct (decide (x ≠ "")) as [Hx|Hx].
  - apply String.eqb_neq in Hx. rewrite Hx. cbn. by rewrite IH.
  - apply dec_stable in Hx. subst x. cbn. exact IH.
Qed.

Lemma compact_count_occ (l : list string) (line : string) :
  line ≠ "" →
  count_occ String.string_dec (compact l) line
  = count_occ String.string_dec l line.
Proof.
  intros Hline. unfold compact. induction l as [|x l IH]; [reflexivity|].
  rewrite filter_cons. destruct (decide (x ≠ "")) as [Hx|Hx].
  - cbn. rewrite IH. reflexivity.
  - apply dec_stable in Hx. subst x. rewrite IH.
    symmetry. apply count_occ_cons_neq. congruence.
Qed.

End JsFacts.

(** ** The resource spec builder *)

Module BuilderFacts.
Import Js KubelessDeploy JsFacts.



(** The memory value of the document is the one [memoryWithSuffix] gives,
    on the limit and on the request. *)
Lemma getFunctionDescription_resources
    (funcName namespace runtime : string) (deps : option string)
    (funcContent handler : string) (desc : option string)
    (labels : option (list (string * string)))
    (env : option (list (string * scalar))) (memory : scalar)
    (eventType : option string) (eventTrigger : option EventValue)
    (doc : ResourceDocument) :
  truthy memory = true →
  getFunctionDescription funcName namespace runtime deps funcContent
    handler desc labels env (Some memory) eventType eventTrigger = Ok doc →
  spec_template (spec doc) ≫= container_resources
  = Some {| limits_memory := memoryWithSuffix memory;
            requests_memory := memoryWithSuffix memory |}.
Proof.
  intros Hm. unfold getFunctionDescription. cbn [truthy_opt].
  rewrite Hm, orb_true_r.
  repeat case_bool_decide; try destruct (isEmpty eventTrigger);
    intros [= <-]; reflexivity.
Qed.

(** The values that [if (memory)] takes for no value. *)
Lemma truthy_false (v : scalar) :
  truthy v = false ↔ v = Num 0 I ∨ v = Str "".
Proof.
  destruct v as [n safe | s]; cbn.
  - rewrite bool_decide_eq_false. split.
    + intros Hn. left. apply dec_stable in Hn. subst n.
      f_equal. apply proof_irrel.
    + intros [[= ->] | [=]]. auto.
  - rewrite bool_decide_eq_false. split.
    + intros Hs. right. apply dec_stable in Hs. by subst s.
    + intros [[=] | [= ->]]. auto.
Qed.

(** Claim C6, as the code has it.  A memory value other than 0 and the
    empty text is normalized: the document carries the value with [Mi]
    appended when the value has no unit suffix (its text ends in a decimal
    digit, as the text of every purely numeric value does) and the value
    itself otherwise; the limit and the request carry the same value.  The
    values 0 and the empty text count as no value: the document carries no
    memory limit and no memory request. *)
Theorem getFunctionDescription_memory
    (funcName namespace runtime : string) (deps : option string)
    (funcContent handler : string) (desc : option string)
    (labels : option (list (string * string)))
    (env : option (list (string * scalar))) (memory : scalar)
    (eventType : option string) (eventTrigger : option EventValue)
    (doc : ResourceDocument) :
  getFunctionDescription funcName namespace runtime deps funcContent
    handler desc labels env (Some memory) eventType eventTrigger = Ok doc →
  let normalized :=
    if ends_in_digit (toString memory)
    then Str (toString memory +:+ "Mi")
    else memory in
  (truthy memory = true →
   spec_template (spec doc) ≫= container_resources
   = Some {| limits_memory := normalized; requests_memory := normalized |}
   ∧ (purely_numeric memory = true
      → normalized = Str (toString memory +:+ "Mi")))
  ∧ (truthy memory = false →
     spec_template (spec doc) ≫= container_resources = None)
  ∧ (truthy memory = false ↔ memory = Num 0 I ∨ memory = Str "").
Proof.
  intros Hdoc normalized.
  assert (Hn : memoryWithSuffix memory = normalized).
  { unfold memoryWithSuffix, normalized.
    rewrite match_digits_at_end_ends. reflexivity. }
  split; [|split].
  - intros Hm. split.
    + rewrite <- Hn. eapply getFunctionDescription_resources; eassumption.
    + intros Hp. unfold normalized. rewrite <- match_digits_at_end_ends.
      unfold purely_numeric in Hp.
      rewrite (digits_to_end_match _ Hp). reflexivity.
  - intros Hm. revert Hdoc. unfold getFunctionDescription.
    cbn [truthy_opt]. rewrite Hm, orb_false_r.
    repeat case_bool_decide; try destruct (isEmpty eventTrigger);
      intros [= <-]; reflexivity.
  - apply truthy_false.
Qed.

Lemma getFunctionDescription_memory_witness :
  ∃ doc,
    getFunctionDescription "hello" "default" "python2.7" None
      "def hello(): pass" "handler.hello" None None None (Some (Num 128 I))
      (Some "http") None = Ok doc
    ∧ spec_template (spec doc) ≫= container_resources
      = Some {| limits_memory := Str "128Mi";
                requests_memory := Str "128Mi" |}.
Proof.
  eexists. split; [reflexivity|].
  apply (getFunctionDescription_memory "hello" "default" "python2.7" None
           "def hello(): pass" "handler.hello" None None None (Num 128 I)
           (Some "http") None); reflexivity.
Defined.

(** Claim C6, as stated, fails.  The memory value 0 is purely numeric, yet
    the document does not carry [0Mi]: it has no container overrides, hence
    neither a memory limit nor a memory request. *)
Lemma memory_zero_is_not_normalized :
  purely_numeric (Num 0 I) = true
  ∧ ∃ doc,
      getFunctionDescription "hello" "default" "python2.7" None
        "def hello(): pass" "handler.hello" None None None
        (Some (Num 0 I)) (Some "http") None = Ok doc
      ∧ spec_template (spec doc) = None
      ∧ spec_template (spec doc) ≫= container_resources
        ≠ Some {| limits_memory := Str "0Mi"; requests_memory := Str "0Mi" |}.
Proof.
  split; [reflexivity|]. eexists. split; [reflexivity|].
  split; [reflexivity | discriminate].
Qed.

End BuilderFacts.

(** ** The readiness poller *)

Module PollerFacts.
Import Js KubelessDeploy JsFacts Samples.

(** A pod that is not ready with more than two restarts marks the poller
    as failed; the mark and the exit code survive the other pods. *)
Lemma check_pod_keeps_failed (pod : Pod) (n n' : nat) (st st' : Poller) :
  check_pod pod (n, st) = (n', st', None) →
  cleared st = Some Failed → exitCode st ≠ 0%Z →
  cleared st' = Some Failed ∧ exitCode st' ≠ 0%Z.
Proof.
  unfold check_pod. intros Hc Hf He.
  destruct (containerStatuses pod) as [[|status rest]|]; simplify_eq/=; auto.
  destruct (ready status); simplify_eq/=; auto.
  case_bool_decide; simplify_eq/=; auto.
  split; [reflexivity|]. case_bool_decide; [lia | assumption].
Qed.

Lemma check_pod_count (pod : Pod) (n n' : nat) (st st' : Poller) :
  check_pod pod (n, st) = (n', st', None) → n' ≤ S n.
Proof.
  unfold check_pod. intros Hc.
  destruct (containerStatuses pod) as [[|status rest]|]; simplify_eq/=; auto.
  destruct (ready status); simplify_eq/=; auto.
  case_bool_decide; simplify_eq/=; auto.
Qed.

Lemma check_pod_not_ready (pod : Pod) (status : ContainerStatus)
    (rest : list ContainerStatus) (n : nat) (st : Poller) :
  containerStatuses pod = Some (status :: rest) → ready status = false →
  ∃ st', check_pod pod (n, st) = (n, st', None)
         ∧ ((2 < restartCount status)%Z →
            cleared st' = Some Failed ∧ exitCode st' ≠ 0%Z).
Proof.
  unfold check_pod. intros -> ->. cbn. case_bool_decide as Hr.
  - eexists. split; [reflexivity|]. intros _. cbn.
    split; [reflexivity|]. case_bool_decide; [lia | assumption].
  - eexists. split; [reflexivity|]. intros ?. contradiction.
Qed.

Lemma check_pod_total (pod : Pod) (n : nat) (st : Poller) :
  containerStatuses pod ≠ Some [] →
  ∃ n' st', check_pod pod (n, st) = (n', st', None).
Proof.
  unfold check_pod. intros Hs.
  destruct (containerStatuses pod) as [[|status rest]|]; [done | | eauto].
  cbn. destruct (ready status); [eauto|]. case_bool_decide; eauto.
Qed.

Lemma each_pod_keeps_failed (pods : list Pod) (n n' : nat) (st st' : Poller) :
  each_pod pods (n, st) = (n', st', None) →
  cleared st = Some Failed → exitCode st ≠ 0%Z →
  cleared st' = Some Failed ∧ exitCode st' ≠ 0%Z.
Proof.
  revert n st. induction pods as [|pod pods IH]; intros n st Hrun Hf He.
  - simplify_eq/=. auto.
  - cbn [each_pod] in Hrun.
    destruct (check_pod pod (n, st)) as [[n1 st1] [e|]] eqn:Hc; [done|].
    destruct (check_pod_keeps_failed _ _ _ _ _ Hc Hf He) as [Hf1 He1].
    eapply IH; eauto.
Qed.

Lemma each_pod_count (pods : list Pod) (n n' : nat) (st st' : Poller) :
  each_pod pods (n, st) = (n', st', None) → n' ≤ n + length pods.
Proof.
  revert n st. induction pods as [|pod pods IH]; intros n st Hrun.
  - simplify_eq/=. lia.
  - cbn [each_pod] in Hrun.
    destruct (check_pod pod (n, st)) as [[n1 st1] [e|]] eqn:Hc; [done|].
    apply check_pod_count in Hc. apply IH in Hrun. cbn [length]. lia.
Qed.

Lemma each_pod_total (pods : list Pod) (n : nat) (st : Poller) :
  (∀ p, p ∈ pods → containerStatuses p ≠ Some []) →
  ∃ n' st', each_pod pods (n, st) = (n', st', None).
Proof.
  revert n st. induction pods as [|pod pods IH]; intros n st Hall.
  - eauto.
  - destruct (check_pod_total pod n st) as (n1 & st1 & Hc).
    { apply Hall. left. }
    cbn [each_pod]. rewrite Hc. apply IH.
    intros p Hp. apply Hall. by right.
Qed.

(** The loop over the pods, when one of them is not ready and has
    restarted more than twice. *)
Lemma each_pod_failed (pods : list Pod) (pod : Pod) (status : ContainerStatus)
    (rest : list ContainerStatus) (n n' : nat) (st st' : Poller) :
  each_pod pods (n, st) = (n', st', None) →
  pod ∈ pods → containerStatuses pod = Some (status :: rest) →
  ready status = false →
  n' < n + length pods
  ∧ ((2 < restartCount status)%Z →
     cleared st' = Some Failed ∧ exitCode st' ≠ 0%Z).
Proof.
  revert n st. induction pods as [|p pods IH]; intros n st Hrun Hin Hs Hr.
  - by apply elem_of_nil in Hin.
  - cbn [each_pod] in Hrun.
    destruct (check_pod p (n, st)) as [[n1 st1] [e|]] eqn:Hc; [done|].
    apply elem_of_cons in Hin as [<- | Hin].
    + destruct (check_pod_not_ready pod status rest n st Hs Hr)
        as (st2 & Hc2 & Hfail).
      rewrite Hc2 in Hc. simplify_eq.
      split.
      * apply each_pod_count in Hrun. cbn [length]. lia.
      * intros Hgt. destruct (Hfail Hgt) as [Hf He].
        eapply each_pod_keeps_failed; eauto.
    + apply check_pod_count in Hc.
      destruct (IH _ _ Hrun Hin Hs Hr) as [Hlt Hfail].
      split; [cbn [length]; lia | assumption].
Qed.

Lemma after_pods_keeps_failed (funcName : string) (verbose : bool)
    (functionPods : list Pod) (runningPods : nat) (st : Poller) :
  runningPods ≠ length functionPods →
  cleared (after_pods funcName verbose functionPods runningPods st)
  = cleared st
  ∧ exitCode (after_pods funcName verbose functionPods runningPods st)
    = exitCode st.
Proof.
  intros Hne. unfold after_pods.
  rewrite bool_decide_eq_false_2 by assumption.
  destruct verbose; [|done]. case_bool_decide; done.
Qed.

Lemma waitForDeployment_cleared (funcName : string) (requestMoment : Z)
    (verbose : bool) (st : Poller) (responses : list PodsResponse) :
  is_Some (cleared st) →
  waitForDeployment funcName requestMoment verbose st responses = (st, None).
Proof. intros [e He]. destruct responses; cbn; rewrite ?He; reflexivity. Qed.

(** A ready container is counted and leaves the poller as it is; its
    restart count is not read. *)
Lemma check_pod_ready (pod : Pod) (status : ContainerStatus)
    (rest : list ContainerStatus) (n : nat) (st : Poller) :
  containerStatuses pod = Some (status :: rest) → ready status = true →
  check_pod pod (n, st) = (S n, st, None).
Proof. unfold check_pod. intros -> ->. reflexivity. Qed.

Lemma each_pod_ready (pods : list Pod) (n : nat) (st : Poller) :
  (∀ pod, pod ∈ pods →
     ∃ status rest,
       containerStatuses pod = Some (status :: rest) ∧ ready status = true) →
  each_pod pods (n, st) = (n + length pods, st, None).
Proof.
  revert n. induction pods as [|pod pods IH]; intros n Hall.
  - cbn. by rewrite Nat.add_0_r.
  - destruct (Hall pod) as (status & rest & Hs & Hr); [left|].
    cbn [each_pod]. rewrite (check_pod_ready _ _ _ _ _ Hs Hr), IH.
    + cbn [length]. replace (S n + length pods) with (n + S (length pods))
        by lia. reflexivity.
    + intros p Hp. apply Hall. by right.
Qed.

(** The loop over the pods leaves the poller as it is when every pod is
    ready or has restarted at most twice. *)
Lemma each_pod_quiet (pods : list Pod) (n : nat) (st : Poller) :
  (∀ p, p ∈ pods → containerStatuses p ≠ Some []) →
  (∀ pod status rest,
     pod ∈ pods → containerStatuses pod = Some (status :: rest) →
     ready status = true ∨ (restartCount status ≤ 2)%Z) →
  ∃ n', each_pod pods (n, st) = (n', st, None).
Proof.
  revert n. induction pods as [|pod pods IH]; intros n Hstatuses Hall.
  - eauto.
  - cbn [each_pod].
    assert (Hc : ∃ n1, check_pod pod (n, st) = (n1, st, None)).
    { unfold check_pod.
      destruct (containerStatuses pod) as [[|status rest]|] eqn:Hs.
      - exfalso. apply (Hstatuses pod); [left | exact Hs].
      - cbn. destruct (ready status) eqn:Hr; [eauto|].
        destruct (Hall pod status rest) as [Hready | Hfew];
          [left | exact Hs | congruence |].
        rewrite bool_decide_eq_false_2 by lia. eauto.
      - eauto. }
    destruct Hc as [n1 ->]. apply IH.
    + intros p Hp. apply Hstatuses. by right.
    + intros p status rest Hp. apply Hall. by right.
Qed.

(** What follows the loop never touches the exit code and clears the
    interval only as [Stable], after a full tick that finds the counter
    at 1. *)
Lemma after_pods_exitCode (funcName : string) (verbose : bool)
    (functionPods : list Pod) (runningPods : nat) (st : Poller) :
  exitCode (after_pods funcName verbose functionPods runningPods st)
  = exitCode st.
Proof.
  unfold after_pods. case_bool_decide; cbn.
  - case_bool_decide; reflexivity.
  - destruct verbose; [|reflexivity]. case_bool_decide; reflexivity.
Qed.

Lemma after_pods_cleared (funcName : string) (verbose : bool)
    (functionPods : list Pod) (runningPods : nat) (st : Poller) :
  cleared (after_pods funcName verbose functionPods runningPods st)
  = if bool_decide (runningPods = length functionPods)
         && bool_decide (successfulCount st = 1)
    then Some Stable else cleared st.
Proof.
  unfold after_pods. case_bool_decide; cbn.
  - repeat case_bool_decide; try lia; reflexivity.
  - destruct verbose; [|reflexivity]. case_bool_decide; reflexivity.
Qed.

Lemma after_pods_full_count (funcName : string) (verbose : bool)
    (functionPods : list Pod) (st : Poller) :
  successfulCount
    (after_pods funcName verbose functionPods (length functionPods) st)
  = S (successfulCount st).
Proof.
  unfold after_pods. rewrite bool_decide_eq_true_2 by reflexivity. cbn.
  case_bool_decide; reflexivity.
Qed.

(** Claim C5, as the code has it.  On a tick that lists the pods of the
    function (the give-up test has not fired, every item has labels and no
    function pod has an empty status array) the callback returns, and:
    - a function pod whose container is not ready and has restarted more
      than twice makes the tick end in [Failed] with a nonzero exit code,
      whatever the other pods report, and the interval does not fire again;
    - a pod whose container is ready is counted as running whatever its
      restart count, and leaves the poller as it is;
    - when every function pod is ready or has restarted at most twice, the
      tick does not end in [Failed] and leaves the exit code alone;
    - when every function pod is ready, whatever the restart counts, the
      tick is a full one: the stability counter goes up by one, and the
      interval is cleared, as [Stable], only if the counter was 1. *)
Theorem tick_failed_on_restarts (funcName : string) (requestMoment : Z)
    (verbose : bool) (st : Poller) (items functionPods : list Pod) :
  retries st ≤ 3 →
  filter_pods funcName requestMoment items = Ok functionPods →
  (∀ p, p ∈ functionPods → containerStatuses p ≠ Some []) →
  ∃ st',
    tick funcName requestMoment verbose st (PodsOk items) = (st', None)
    ∧ (∀ pod status rest,
         pod ∈ functionPods →
         containerStatuses pod = Some (status :: rest) →
         ready status = false →
         (2 < restartCount status)%Z →
         cleared st' = Some Failed
         ∧ exitCode st' ≠ 0%Z
         ∧ ∀ more,
             waitForDeployment funcName requestMoment verbose st' more
             = (st', None))
    ∧ (∀ pod status rest runningPods poller,
         containerStatuses pod = Some (status :: rest) →
         ready status = true →
         check_pod pod (runningPods, poller)
         = (S runningPods, poller, None))
    ∧ ((∀ pod status rest,
          pod ∈ functionPods →
          containerStatuses pod = Some (status :: rest) →
          ready status = true ∨ (restartCount status ≤ 2)%Z) →
       exitCode st' = exitCode st
       ∧ (cleared st ≠ Some Failed → cleared st' ≠ Some Failed))
    ∧ (functionPods ≠ [] →
       (∀ pod, pod ∈ functionPods →
          ∃ status rest,
            containerStatuses pod = Some (status :: rest)
            ∧ ready status = true) →
       successfulCount st' = S (successfulCount st)
       ∧ cleared st'
         = if bool_decide (successfulCount st = 1)
           then Some Stable else cleared st).
Proof.
  intros Hretries Hfilter Hstatuses.
  unfold tick. rewrite bool_decide_eq_false_2 by lia. rewrite Hfilter.
  destruct functionPods as [|p0 ps].
  { eexists. split; [reflexivity|]. split; [|split; [|split]].
    - intros pod status rest Hin. by apply elem_of_nil in Hin.
    - intros pod status rest n poller. apply check_pod_ready.
    - intros _. cbn. split; [reflexivity | auto].
    - intros Hne. done. }
  destruct (each_pod_total (p0 :: ps) 0 st Hstatuses) as (n' & st1 & Hrun).
  rewrite Hrun. eexists. split; [reflexivity|].
  split; [|split; [|split]].
  - intros pod status rest Hin Hs Hr Hgt.
    destruct (each_pod_failed _ _ _ _ _ _ _ _ Hrun Hin Hs Hr) as [Hlt Hfail].
    destruct (Hfail Hgt) as [Hf He].
    destruct (after_pods_keeps_failed funcName verbose (p0 :: ps) n' st1)
      as [Hc Hx]; [lia|].
    rewrite Hc, Hx. repeat split; try assumption.
    intros more. apply waitForDeployment_cleared. rewrite Hc, Hf. eauto.
  - intros pod status rest n poller. apply check_pod_ready.
  - intros Hall.
    destruct (each_pod_quiet (p0 :: ps) 0 st Hstatuses Hall) as [n1 Hquiet].
    rewrite Hquiet in Hrun. simplify_eq.
    rewrite after_pods_exitCode, after_pods_cleared.
    split; [reflexivity|]. intros Hnf.
    destruct (_ && _); [discriminate | assumption].
  - intros _ Hall. rewrite (each_pod_ready _ 0 st Hall) in Hrun.
    simplify_eq. cbn [Nat.add].
    rewrite after_pods_full_count, after_pods_cleared.
    rewrite bool_decide_eq_true_2 by reflexivity. split; reflexivity.
Qed.

Lemma tick_failed_on_restarts_witness :
  ∃ st',
    tick "hello" 1504605600000 false (init_poller 0)
      (PodsOk [hello_pod true 0; hello_pod false 3]) = (st', None)
    ∧ cleared st' = Some Failed
    ∧ exitCode st' ≠ 0%Z
    ∧ ∀ more,
        waitForDeployment "hello" 1504605600000 false st' more = (st', None).
Proof.
  destruct (tick_failed_on_restarts "hello" 1504605600000 false
              (init_poller 0)
              [hello_pod true 0; hello_pod false 3]
              [hello_pod true 0; hello_pod false 3])
    as (st' & Htick & Hfailed & _).
  - simpl. lia.
  - reflexivity.
  - intros p Hp. apply list_elem_of_In in Hp. simpl in Hp.
    destruct Hp as [<- | [<- | []]]; discriminate.
  - exists st'. split; [exact Htick|].
    apply (Hfailed (hello_pod false 3)
             {| ready := false; restartCount := 3; state_json := "{}" |} []).
    + apply list_elem_of_In. simpl. auto.
    + reflexivity.
    + reflexivity.
    + reflexivity.
Defined.

(** Claim C5, as stated, fails.  A pod that is ready and has restarted
    three times is counted as running: the tick does not end in [Failed],
    the exit code stays 0, and two such ticks end in [Stable]. *)
Lemma ready_pod_with_restarts_not_failed :
  let pod := hello_pod true 3 in
  let first := (tick "hello" 1504605600000 false (init_poller 0)
                  (PodsOk [pod])).1 in
  cleared first = None
  ∧ exitCode first = 0%Z
  ∧ successfulCount first = 1
  ∧ waitForDeployment "hello" 1504605600000 false (init_poller 0)
      [PodsOk [pod]; PodsOk [pod]]
    = ({| retries := 0; successfulCount := 2; previousPodStatus := None;
          cleared := Some Stable; exitCode := 0;
          cli_log := ["Function hello succesfully deployed"] |}, None).
Proof. cbn. repeat split. Qed.

(** A tick that finds function pods of which not all are ready leaves the
    stability counter as it was when [verbose] is not set, and sets it to 0
    when [verbose] is set. *)
Lemma after_pods_not_full (funcName : string) (verbose : bool)
    (functionPods : list Pod) (runningPods : nat) (st : Poller) :
  runningPods ≠ length functionPods →
  successfulCount (after_pods funcName verbose functionPods runningPods st)
  = if verbose then 0 else successfulCount st.
Proof.
  intros Hne. unfold after_pods.
  rewrite bool_decide_eq_false_2 by assumption.
  destruct verbose; [|done]. case_bool_decide; done.
Qed.

(** The tick on which all the function pods are ready ends in [Stable]
    exactly when the counter was 1 before it. *)
Lemma after_pods_full (funcName : string) (verbose : bool)
    (functionPods : list Pod) (st : Poller) :
  cleared st = None →
  cleared (after_pods funcName verbose functionPods (length functionPods) st)
  = if bool_decide (successfulCount st = 1) then Some Stable else None.
Proof.
  intros Hc. unfold after_pods.
  rewrite bool_decide_eq_true_2 by reflexivity. cbn.
  repeat case_bool_decide; try lia; done.
Qed.

(** The loop over the pods leaves the stability counter alone and clears
    the interval only as [Failed]. *)
Lemma check_pod_frame (pod : Pod) (acc : nat * Poller) :
  successfulCount (check_pod pod acc).1.2 = successfulCount acc.2
  ∧ (cleared (check_pod pod acc).1.2 = cleared acc.2
     ∨ cleared (check_pod pod acc).1.2 = Some Failed).
Proof.
  unfold check_pod.
  destruct (containerStatuses pod) as [[|status rest]|]; cbn; auto.
  destruct (ready status); cbn; auto. case_bool_decide; cbn; auto.
Qed.

Lemma each_pod_frame (pods : list Pod) (acc : nat * Poller) :
  successfulCount (each_pod pods acc).1.2 = successfulCount acc.2
  ∧ (cleared (each_pod pods acc).1.2 = cleared acc.2
     ∨ cleared (each_pod pods acc).1.2 = Some Failed).
Proof.
  revert acc. induction pods as [|pod pods IH]; intros acc; [cbn; auto|].
  cbn [each_pod]. pose proof (check_pod_frame pod acc) as [Hs Hc].
  destruct (check_pod pod acc) as [acc1 [e|]]; [cbn in *; auto|].
  destruct (IH acc1) as [Hs1 Hc1]. cbn in Hs, Hc.
  split; [congruence|]. destruct Hc1 as [Hc1 | Hc1]; [|auto].
  rewrite Hc1. exact Hc.
Qed.

(** A tick ends in [Stable] only when the stability counter was 1 before
    it: never on the first tick on which all the pods are ready. *)
Lemma tick_stable_counter (funcName : string) (requestMoment : Z)
    (verbose : bool) (st : Poller) (response : PodsResponse) :
  cleared st = None →
  cleared (tick funcName requestMoment verbose st response).1 = Some Stable →
  successfulCount st = 1
  ∧ successfulCount (tick funcName requestMoment verbose st response).1 = 2.
Proof.
  intros Hc. unfold tick. case_bool_decide; [discriminate|].
  destruct response as [message | items].
  { destruct (includes _ message); cbn; congruence. }
  destruct (filter_pods funcName requestMoment items) as [[|p ps]|e];
    [cbn; congruence | | cbn; congruence].
  pose proof (each_pod_frame (p :: ps) (0, st)) as [Hs Hcl].
  destruct (each_pod (p :: ps) (0, st)) as [[n st1] [e|]]; cbn in Hs, Hcl.
  { cbn. destruct Hcl; congruence. }
  cbn [fst]. unfold after_pods. case_bool_decide.
  - cbn. case_bool_decide; cbn; [intros _; lia|].
    destruct Hcl; congruence.
  - destruct verbose; [|destruct Hcl; congruence].
    case_bool_decide; cbn; destruct Hcl; congruence.
Qed.

(** Claim C2 fails on the code when [verbose] is not set.  Pods ready,
    then not ready, then ready again: the tick in the middle leaves the
    stability counter at 1 instead of 0, and the third tick ends in
    [Stable] although the two full ticks are not consecutive. *)
Theorem waitForDeployment_flap_without_verbose :
  let run :=
    waitForDeployment "hello" 1504605600000 false (init_poller 0) in
  let full := PodsOk [hello_pod true 0] in
  let flap := PodsOk [hello_pod false 0] in
  run [full; flap]
  = ({| retries := 0; successfulCount := 1; previousPodStatus := None;
        cleared := None; exitCode := 0; cli_log := [] |}, None)
  ∧ run [full; flap; full]
    = ({| retries := 0; successfulCount := 2; previousPodStatus := None;
          cleared := Some Stable; exitCode := 0;
          cli_log := ["Function hello succesfully deployed"] |}, None).
Proof. split; reflexivity. Qed.

(** With [verbose] set the same ticks do reset the counter: the third tick
    is the first of a new run and the poller is still polling. *)
Lemma waitForDeployment_flap_with_verbose :
  let run :=
    waitForDeployment "hello" 1504605600000 true (init_poller 0) in
  let full := PodsOk [hello_pod true 0] in
  let flap := PodsOk [hello_pod false 0] in
  successfulCount (run [full; flap]).1 = 0
  ∧ cleared (run [full; flap; full]).1 = None
  ∧ cleared (run [full; flap; full; full]).1 = Some Stable.
Proof. repeat split. Qed.

End PollerFacts.

(** ** The deployment reconciler *)

Module ReconcilerFacts.
Import Js KubelessDeploy JsFacts Samples.

Lemma getFunctionDescription_name
    (funcName namespace runtime : string) (deps : option string)
    (funcContent handler : string) (desc : option string)
    (labels : option (list (string * string)))
    (env : option (list (string * scalar))) (memory : option scalar)
    (eventType : option string) (eventTrigger : option EventValue)
    (doc : ResourceDocument) :
  getFunctionDescription funcName namespace runtime deps funcContent
    handler desc labels env memory eventType eventTrigger = Ok doc →
  metadata_name (metadata doc) = funcName.
Proof.
  unfold getFunctionDescription.
  repeat case_bool_decide; try destruct (isEmpty eventTrigger);
    intros [= <-]; reflexivity.
Qed.

Lemma existingSameFunction_true (items : list ResourceDocument)
    (funcs item : ResourceDocument) :
  item ∈ items →
  metadata_name (metadata item) = metadata_name (metadata funcs) →
  spec item = spec funcs →
  existingSameFunction items funcs = true.
Proof.
  intros Hin Hname Hspec. apply existsb_exists. exists item.
  split; [by apply list_elem_of_In|].
  by rewrite !bool_decide_eq_true_2.
Qed.

Lemma existingSameFunction_false (items : list ResourceDocument)
    (funcs : ResourceDocument) :
  (∀ item, item ∈ items →
     metadata_name (metadata item) = metadata_name (metadata funcs) →
     spec item ≠ spec funcs) →
  existingSameFunction items funcs = false.
Proof.
  intros Hall. apply not_true_is_false.
  intros (item & Hin & Hb)%existsb_exists.
  apply andb_true_iff in Hb as [Hn Hs].
  apply bool_decide_eq_true in Hn, Hs.
  eapply Hall; eauto. by apply list_elem_of_In.
Qed.

Lemma existingFunction_true (items : list ResourceDocument)
    (funcs item : ResourceDocument) :
  item ∈ items →
  metadata_name (metadata item) = metadata_name (metadata funcs) →
  existingFunction items funcs = true.
Proof.
  intros Hin Hname. apply existsb_exists. exists item.
  split; [by apply list_elem_of_In|]. by rewrite bool_decide_eq_true_2.
Qed.

(** Claim C7.  When the cluster lists a function with the name of the
    freshly built document and a spec equal to it, the reconciliation of the
    event only lists the functions and logs that nothing changed: no create
    or update call, no poller, no ingress call, no error. *)
Theorem deployEvent_unchanged_is_skipped (opts : Options)
    (provider : Provider) (helpers : Helpers) (cluster : Cluster) (clock : Z)
    (name : string) (description : FunctionDefinition)
    (functionContent : string) (requirementsContent : option string)
    (event : Event) (funcs : ResourceDocument)
    (items : list ResourceDocument) (item : ResourceDocument) :
  funcs_of_event provider helpers name description functionContent
    requirementsContent event = Ok funcs →
  functions_get cluster (function_namespace provider helpers description)
  = inr items →
  item ∈ items →
  metadata_name (metadata item) = metadata_name (metadata funcs) →
  spec item = spec funcs →
  deployEvent opts provider helpers cluster clock name description
    functionContent requirementsContent event
  = {| actions :=
         [ApiFunctionsGet;
          CliLog ("Function " +:+ name
                  +:+ " has not changed. Skipping deployment")];
       pushed := [];
       chain_end := Completed |}.
Proof.
  intros Hfuncs Hget Hin Hname Hspec. unfold deployEvent.
  rewrite Hfuncs, Hget.
  rewrite (existingSameFunction_true _ _ _ Hin Hname Hspec).
  reflexivity.
Qed.

(** Claim C3, as the code has it.  When the cluster lists a function with
    the name of the freshly built document, none with an equal spec, and
    [force] is not set, the reconciler submits a create call; when the
    cluster answers it with code 409, the reconciler logs that the function
    exists and how to redeploy it with [--force], and the chain completes
    without an error, without a second call, without poller and without
    ingress call. *)
Theorem deployEvent_conflict_without_force (opts : Options)
    (provider : Provider) (helpers : Helpers) (cluster : Cluster) (clock : Z)
    (name : string) (description : FunctionDefinition)
    (functionContent : string) (requirementsContent : option string)
    (event : Event) (funcs : ResourceDocument)
    (items : list ResourceDocument) (item : ResourceDocument)
    (err : ApiError) :
  funcs_of_event provider helpers name description functionContent
    requirementsContent event = Ok funcs →
  functions_get cluster (function_namespace provider helpers description)
  = inr items →
  item ∈ items →
  metadata_name (metadata item) = metadata_name (metadata funcs) →
  (∀ item', item' ∈ items →
     metadata_name (metadata item') = metadata_name (metadata funcs) →
     spec item' ≠ spec funcs) →
  force opts = false →
  functions_post cluster funcs = Some err →
  err_code err = 409%Z →
  deployEvent opts provider helpers cluster clock name description
    functionContent requirementsContent event
  = {| actions :=
         [ApiFunctionsGet;
          CliLog ("Deploying function " +:+ name +:+ "...");
          ApiFunctionsPost funcs;
          CliLog (already_exists_line name)];
       pushed := [];
       chain_end := Completed |}.
Proof.
  intros Hfuncs Hget Hin Hname Hdiff Hforce Hpost Hcode.
  pose proof (getFunctionDescription_name _ _ _ _ _ _ _ _ _ _ _ _ _ Hfuncs)
    as Hn.
  unfold deployEvent. rewrite Hfuncs, Hget.
  rewrite (existingSameFunction_false _ _ Hdiff).
  rewrite (existingFunction_true _ _ _ Hin Hname), Hforce.
  cbn [andb]. unfold deployFunctionAndWait.
  rewrite Hpost, Hn, bool_decide_eq_true_2 by assumption.
  reflexivity.
Qed.

Lemma ingress_step_skipped (opts : Options) (provider : Provider)
    (helpers : Helpers) (cluster : Cluster) (name : string) (event : Event)
    (namespace : string) (deployed redeployed : bool) :
  negb deployed || redeployed = true →
  ingress_step opts provider helpers cluster name event namespace
    deployed redeployed = ([], Resolved ()).
Proof. unfold ingress_step. intros ->. reflexivity. Qed.

(** Claim C4, as the code has it.  In the actions of one function event,
    the ingress provisioner is called only after a create call that the
    cluster accepted and after the poller of the function has been started
    (not after the poller has reported success); on the update path
    ([force] set, a function of that name listed, none with an equal spec)
    the provisioner is not called and no ingress rule is posted. *)
Theorem deployEvent_ingress_after_poller_start (opts : Options)
    (provider : Provider) (helpers : Helpers) (cluster : Cluster) (clock : Z)
    (name : string) (description : FunctionDefinition)
    (functionContent : string) (requirementsContent : option string)
    (event : Event) :
  let chain :=
    deployEvent opts provider helpers cluster clock name description
      functionContent requirementsContent event in
  (∀ i a, actions chain !! i = Some a → is_ingress_call a = true →
     ∃ j k body requestMoment namespace,
       j < k ∧ k < i
       ∧ actions chain !! j = Some (ApiFunctionsPost body)
       ∧ functions_post cluster body = None
       ∧ actions chain !! k
         = Some (StartPoller name requestMoment namespace))
  ∧ (∀ funcs items item,
       funcs_of_event provider helpers name description functionContent
         requirementsContent event = Ok funcs →
       functions_get cluster (function_namespace provider helpers description)
       = inr items →
       item ∈ items →
       metadata_name (metadata item) = metadata_name (metadata funcs) →
       (∀ item', item' ∈ items →
          metadata_name (metadata item') = metadata_name (metadata funcs) →
          spec item' ≠ spec funcs) →
       force opts = true →
       Forall (λ a, is_ingress_call a = false ∧ is_ingress_post a = false)
         (actions chain)).
Proof.
  intros chain. subst chain. split.
  - intros i a. unfold deployEvent.
    destruct (funcs_of_event _ _ _ _ _ _ _) as [funcs|e] eqn:Hfuncs;
      [|by destruct i].
    pose proof (getFunctionDescription_name _ _ _ _ _ _ _ _ _ _ _ _ _ Hfuncs)
      as Hn.
    destruct (functions_get cluster _) as [err|items];
      [by destruct i as [|[|i]]; intros [= <-]|].
    destruct (existingSameFunction items funcs).
    { cbn. by destruct i as [|[|[|i]]]; intros [= <-]. }
    destruct (existingFunction items funcs && force opts).
    { unfold redeployFunctionAndWait.
      destruct (functions_put cluster _ funcs); cbn;
        by destruct i as [|[|[|[|i]]]]; intros [= <-]. }
    unfold deployFunctionAndWait. rewrite Hn.
    destruct (functions_post cluster funcs) as [err|] eqn:Hpost.
    { case_bool_decide; cbn;
        by destruct i as [|[|[|[|[|i]]]]]; intros [= <-]. }
    cbn -[ingress_step].
    destruct i as [|[|[|[|i]]]]; try by intros [= <-].
    intros _ _. exists 2, 3, funcs. do 2 eexists.
    repeat split; try reflexivity; try lia. assumption.
  - intros funcs items item Hfuncs Hget Hin Hname Hdiff Hforce.
    unfold deployEvent. rewrite Hfuncs, Hget.
    rewrite (existingSameFunction_false _ _ Hdiff).
    rewrite (existingFunction_true _ _ _ Hin Hname), Hforce.
    cbn [andb]. unfold redeployFunctionAndWait.
    destruct (functions_put cluster _ funcs); cbn;
      repeat constructor.
Qed.





Lemma deployEvent_unchanged_is_skipped_witness :
  deployEvent (options false false) (provider None) helpers
    (cluster [hello_document "def hello(): pass"
                (Some [("kubeless.serverless.com/description", "old")])]
       None)
    clock "hello" (hello None) "def hello(): pass" None
    [("http", EvObj (Some "/") None)]
  = {| actions :=
         [ApiFunctionsGet;
          CliLog ("Function " +:+ "hello"
                  +:+ " has not changed. Skipping deployment")];
       pushed := [];
       chain_end := Completed |}.
Proof.
  apply (deployEvent_unchanged_is_skipped _ _ _ _ _ _ _ _ _ _
           (hello_document "def hello(): pass" None)
           [hello_document "def hello(): pass"
              (Some [("kubeless.serverless.com/description", "old")])]
           (hello_document "def hello(): pass"
              (Some [("kubeless.serverless.com/description", "old")])));
    try reflexivity.
  apply list_elem_of_singleton. reflexivity.
Defined.

Lemma deployEvent_conflict_without_force_witness :
  deployEvent (options false false) (provider None) helpers
    (cluster [hello_document "def hello(): return 1" None] (Some conflict))
    clock "hello" (hello None) "def hello(): pass" None
    [("http", EvObj (Some "/") None)]
  = {| actions :=
         [ApiFunctionsGet;
          CliLog ("Deploying function " +:+ "hello" +:+ "...");
          ApiFunctionsPost (hello_document "def hello(): pass" None);
          CliLog (already_exists_line "hello")];
       pushed := [];
       chain_end := Completed |}.
Proof.
  apply (deployEvent_conflict_without_force _ _ _ _ _ _ _ _ _ _
           (hello_document "def hello(): pass" None)
           [hello_document "def hello(): return 1" None]
           (hello_document "def hello(): return 1" None) conflict);
    try reflexivity.
  - apply list_elem_of_singleton. reflexivity.
  - intros item' ->%list_elem_of_singleton _. discriminate.
Defined.

(** Claim C3, as stated, fails.  The cluster stores [hello] with another
    source text, [force] is not set and the cluster answers the create call
    with code 409: no error is recorded and the deployment resolves. *)
Lemma conflict_without_force_resolves :
  let stored := hello_document "def hello(): return 1" None in
  let result :=
    deployFunction (options false false) (provider None) helpers
      (cluster [stored] (Some conflict)) clock files
      [("hello", hello None)] in
  spec stored ≠ spec (hello_document "def hello(): pass" None)
  ∧ errors result = []
  ∧ settled result = Some (Resolved ())
  ∧ trace result
    = [ApiFunctionsGet;
       CliLog "Deploying function hello...";
       ApiFunctionsPost (hello_document "def hello(): pass" None);
       CliLog (already_exists_line "hello")].
Proof. repeat split. discriminate. Qed.

Lemma deployEvent_ingress_after_poller_start_witness :
  (∃ j k body requestMoment namespace,
     j < k ∧ k < 4
     ∧ actions
         (deployEvent (options false false) (provider None) helpers
            (cluster [] None) clock "hello"
            (hello (Some [[("http", EvObj (Some "/hello") None)]]))
            "def hello(): pass" None [("http", EvObj (Some "/hello") None)])
       !! j = Some (ApiFunctionsPost body)
     ∧ functions_post (cluster [] None) body = None
     ∧ actions
         (deployEvent (options false false) (provider None) helpers
            (cluster [] None) clock "hello"
            (hello (Some [[("http", EvObj (Some "/hello") None)]]))
            "def hello(): pass" None [("http", EvObj (Some "/hello") None)])
       !! k = Some (StartPoller "hello" requestMoment namespace))
  ∧ Forall (λ a, is_ingress_call a = false ∧ is_ingress_post a = false)
      (actions
         (deployEvent (options true false) (provider None) helpers
            (cluster [hello_document "def hello(): return 1" None] None)
            clock "hello"
            (hello (Some [[("http", EvObj (Some "/hello") None)]]))
            "def hello(): pass" None [("http", EvObj (Some "/hello") None)])).
Proof.
  split.
  - destruct (deployEvent_ingress_after_poller_start (options false false)
                (provider None) helpers (cluster [] None) clock "hello"
                (hello (Some [[("http", EvObj (Some "/hello") None)]]))
                "def hello(): pass" None
                [("http", EvObj (Some "/hello") None)])
      as [Hcreate _].
    apply (Hcreate 4 (AddIngressRule "hello" (Some "http") (Some "/hello")
                        None "default")); reflexivity.
  - destruct (deployEvent_ingress_after_poller_start (options true false)
                (provider None) helpers
                (cluster [hello_document "def hello(): return 1" None] None)
                clock "hello"
                (hello (Some [[("http", EvObj (Some "/hello") None)]]))
                "def hello(): pass" None
                [("http", EvObj (Some "/hello") None)])
      as [_ Hupdate].
    apply (Hupdate (hello_document "def hello(): pass" None)
             [hello_document "def hello(): return 1" None]
             (hello_document "def hello(): return 1" None));
      try reflexivity.
    + apply list_elem_of_singleton. reflexivity.
    + intros item' ->%list_elem_of_singleton _. discriminate.
Defined.

(** Claim C4, as stated, fails.  [hello] is created with the path
    [/hello]; the cluster never lists a pod for it.  The provisioner is
    called and the ingress rule is posted right after the poller is
    started, and the poller gives up without ever reporting success. *)
Lemma ingress_without_poller_success :
  let chain :=
    deployEvent (options false false) (provider None) helpers
      (cluster [] None) clock "hello"
      (hello (Some [[("http", EvObj (Some "/hello") None)]]))
      "def hello(): pass" None [("http", EvObj (Some "/hello") None)] in
  let empty := PodsOk [] in
  session (options false false) 0 chain [empty; empty; empty; empty; empty]
  = [ApiFunctionsGet;
     CliLog "Deploying function hello...";
     ApiFunctionsPost (hello_document "def hello(): pass" None);
     StartPoller "hello" 1504605600000 (Some "default");
     AddIngressRule "hello" (Some "http") (Some "/hello") None "default";
     ApiIngressPost
       (getIngressDescription "hello" "/hello" "192.168.99.100.nip.io");
     CliLog "Unable to find any running pod for hello. Retrying...";
     CliLog "Unable to find any running pod for hello. Retrying...";
     CliLog "Unable to find any running pod for hello. Retrying...";
     CliLog "Unable to find any running pod for hello. Retrying...";
     CliLog "Giving up, unable to retrieve the status of the hello deployment. "]
  ∧ Forall (λ a, a ≠ CliLog (success_line "hello"))
      (session (options false false) 0 chain
         [empty; empty; empty; empty; empty]).
Proof. split; [reflexivity|]. repeat constructor; discriminate. Qed.

End ReconcilerFacts.

(** ** The log filter *)

Module LogsFacts.
Import Js KubelessLogs JsFacts Samples.

Lemma findIndex_range {A} (p : A → bool) (l : list A) :
  (-1 ≤ findIndex p l < Z.of_nat (length l))%Z.
Proof.
  induction l as [|x l IH]; cbn [findIndex length]; [lia|].
  destruct (p x); [lia|]. case_bool_decide; lia.
Qed.

Lemma findIndex_none {A} (p : A → bool) (l : list A) :
  (∀ x, x ∈ l → p x = false) → findIndex p l = (-1)%Z.
Proof.
  induction l as [|x l IH]; intros Hall; [reflexivity|].
  cbn [findIndex]. rewrite (Hall x) by left.
  rewrite IH by (intros y Hy; apply Hall; by right).
  reflexivity.
Qed.

Lemma findIndex_first {A} (p : A → bool) (before : list A) (x : A)
    (after : list A) :
  p x = true → (∀ y, y ∈ before → p y = false) →
  findIndex p (before ++ x :: after) = Z.of_nat (length before).
Proof.
  intros Hx. induction before as [|y before IH]; intros Hall.
  - cbn. rewrite Hx. reflexivity.
  - cbn [app findIndex length]. rewrite (Hall y) by left.
    rewrite IH by (intros z Hz; apply Hall; by right).
    rewrite bool_decide_eq_false_2 by lia. lia.
Qed.

Lemma slice_of_nat {A} (n : nat) (l : list A) :
  n ≤ length l → slice (Z.of_nat n) l = drop n l.
Proof.
  intros Hn. unfold slice.
  rewrite bool_decide_eq_false_2 by lia. f_equal. lia.
Qed.

(** A list either has no element that satisfies [p] or splits at the
    first one that does. *)
Lemma first_or_none {A} (p : A → bool) (l : list A) :
  (∀ x, x ∈ l → p x = false)
  ∨ ∃ before x after,
      l = before ++ x :: after ∧ p x = true
      ∧ ∀ y, y ∈ before → p y = false.
Proof.
  induction l as [|x l IH].
  - left. intros x Hx. by apply elem_of_nil in Hx.
  - destruct (p x) eqn:Hx.
    + right. exists [], x, l. repeat split; [assumption|].
      intros y Hy. by apply elem_of_nil in Hy.
    + destruct IH as [Hnone | (before & y & after & -> & Hy & Hbefore)].
      * left. intros y [-> | Hy]%elem_of_cons; auto.
      * right. exists (x :: before), y, after. repeat split; [assumption|].
        intros z [-> | Hz]%elem_of_cons; auto.
Qed.

Section FilterFacts.
Context `{Moment} `{Regex}.

(** With a start time set, the result is made of the entries from the
    first one that satisfies the test of the time filter, or is empty.  The
    entries are those left by the count and pattern filters. *)
Lemma filterLogs_from_first (logs : string) (opts : LogFilterOptions)
    (start : string) :
  startTime opts = Some start → start ≠ "" →
  let entries :=
    pattern_filter opts
      (count_filter opts (compact (split "010"%char logs))) in
  let reached := at_or_after (startMoment start) in
  (∀ before entry after,
     entries = before ++ entry :: after →
     reached entry = true →
     (∀ e, e ∈ before → reached e = false) →
     filterLogs logs opts = join newline (entry :: after))
  ∧ ((∀ e, e ∈ entries → reached e = false) → filterLogs logs opts = "").
Proof.
  intros Hstart Hne entries reached.
  assert (Hf : filterLogs logs opts
               = join newline
                   (let logIndex := findIndex reached entries in
                    if bool_decide (-1 < logIndex)%Z
                    then slice logIndex entries else [])).
  { unfold filterLogs, time_filter. rewrite Hstart.
    rewrite bool_decide_eq_true_2 by assumption. reflexivity. }
  split.
  - intros before entry after Hentries Hentry Hbefore.
    rewrite Hf, Hentries. cbn zeta.
    rewrite (findIndex_first _ _ _ _ Hentry Hbefore).
    rewrite bool_decide_eq_true_2 by lia.
    rewrite slice_of_nat by (rewrite length_app; lia).
    rewrite drop_app_length. reflexivity.
  - intros Hnone. rewrite Hf. cbn zeta.
    rewrite (findIndex_none _ _ Hnone). reflexivity.
Qed.

(** Claim C8 fails on the code.  The pattern of the time stamp ends in
    [... \+\d{4}|-\d{4}]: the alternation splits the whole pattern instead
    of the sign of the offset, so a time stamp with a negative offset is
    not read and the date of the entry is the text [-0500].  Take two
    entries stamped 09:59 and 10:01 at offset -0500 (14:59 and 15:01 UTC)
    and the start time 15:00 UTC: the filter should drop the first entry and
    keep the second.  Both entries give the same text to [moment], so,
    whatever [moment] answers, the filter keeps both entries or none. *)
Theorem filterLogs_negative_offset :
  let early := "10.0.0.1 - - [05/Sep/2017:09:59:00 -0500] GET /early" in
  let late := "10.0.0.1 - - [05/Sep/2017:10:01:00 -0500] GET /late" in
  let logs := early +:+ newline +:+ late in
  let opts := {| startTime := Some "2017-09-05T15:00:00Z"; count := None;
                 filter := None |} in
  entryDate early = Some "-0500"
  ∧ entryDate late = Some "-0500"
  ∧ (filterLogs logs opts = logs ∨ filterLogs logs opts = "")
  ∧ filterLogs logs opts ≠ late.
Proof.
  intros early late logs opts.
  assert (Hearly : entryDate early = Some "-0500") by reflexivity.
  assert (Hlate : entryDate late = Some "-0500") by reflexivity.
  assert (Hrun : filterLogs logs opts
                 = if at_or_after (startMoment "2017-09-05T15:00:00Z") early
                   then logs else "").
  { unfold filterLogs, time_filter.
    change (pattern_filter opts
              (count_filter opts (compact (split "010"%char logs))))
      with [early; late].
    cbn [startTime opts]. rewrite bool_decide_eq_true_2 by discriminate.
    cbn zeta. cbn [findIndex].
    assert (Hsame : at_or_after (startMoment "2017-09-05T15:00:00Z") late
                    = at_or_after (startMoment "2017-09-05T15:00:00Z") early).
    { unfold at_or_after. rewrite Hearly, Hlate. reflexivity. }
    rewrite Hsame.
    destruct (at_or_after _ early); reflexivity. }
  split; [exact Hearly|]. split; [exact Hlate|].
  rewrite Hrun. destruct (at_or_after _ early).
  - split; [left; reflexivity | discriminate].
  - split; [right; reflexivity | discriminate].
Qed.

(** Claim C9.  Each filter leaves the entries as they are when its option
    is not set.  With no option set the result is the lines of the input
    that are not empty, joined again: no kept line is empty, the kept lines
    stand in the order of the input, every line that is not empty is kept as
    often as it occurs, and the lines of the result are exactly the kept
    lines.  The result is the input itself when the input has no empty
    line. *)
Theorem filterLogs_no_options (logs : string) :
  let lines := split "010"%char logs in
  let kept := List.filter (λ line, negb (line =? "")%string) lines in
  (∀ opts entries, count opts = None → count_filter opts entries = entries)
  ∧ (∀ opts entries, filter opts = None →
       pattern_filter opts entries = entries)
  ∧ (∀ opts entries, startTime opts = None →
       time_filter opts entries = entries)
  ∧ filterLogs logs no_options = join newline kept
  ∧ Forall (λ line, line ≠ "") kept
  ∧ kept `sublist_of` lines
  ∧ (∀ line, line ≠ "" →
       count_occ String.string_dec kept line
       = count_occ String.string_dec lines line)
  ∧ (kept ≠ [] → split "010"%char (filterLogs logs no_options) = kept)
  ∧ (kept = [] → filterLogs logs no_options = "")
  ∧ ((∀ line, line ∈ lines → line ≠ "") →
     filterLogs logs no_options = logs).
Proof.
  intros lines kept.
  assert (Hkept : compact lines = kept) by apply compact_filter.
  assert (Hjoin : filterLogs logs no_options = join newline kept).
  { unfold filterLogs. cbn. fold lines. by rewrite Hkept. }
  assert (Hin : ∀ line, line ∈ kept → line ≠ "" ∧ line ∈ lines).
  { intros line. rewrite <- Hkept. unfold compact.
    by rewrite list_elem_of_filter. }
  split; [|split; [|split; [|split; [|split; [|split; [|split;
    [|split; [|split]]]]]]]].
  - intros opts entries Hc. unfold count_filter. by rewrite Hc.
  - intros opts entries Hc. unfold pattern_filter. by rewrite Hc.
  - intros opts entries Hc. unfold time_filter. by rewrite Hc.
  - exact Hjoin.
  - apply List.Forall_forall. intros line Hline%list_elem_of_In.
    by apply Hin.
  - rewrite <- Hkept. apply sublist_filter.
  - intros line Hline. rewrite <- Hkept. by apply compact_count_occ.
  - intros Hne. rewrite Hjoin. unfold newline. apply split_join; [exact Hne|].
    apply List.Forall_forall. intros line Hline%list_elem_of_In.
    pose proof (split_pieces "010"%char logs) as Hp.
    rewrite List.Forall_forall in Hp. apply Hp.
    apply list_elem_of_In. by apply Hin.
  - intros Hnil. rewrite Hjoin, Hnil. reflexivity.
  - intros Hlines. rewrite Hjoin, <- Hkept.
    rewrite (compact_id _ Hlines). apply join_split.
Qed.

End FilterFacts.

Lemma filterLogs_no_options_witness :
  "" ∈ split "010"%char sample_log
  ∧ @filterLogs sample_moment sample_regex sample_log no_options
    = join newline
        ["10.0.0.1 - - [05/Sep/2017:09:59:00 +0000] GET / 200";
         "10.0.0.1 - - [05/Sep/2017:10:00:30 +0000] GET / 500";
         "Traceback (most recent call last):"].
Proof.
  split.
  - apply list_elem_of_In. vm_compute. auto.
  - pose proof (@filterLogs_no_options sample_moment sample_regex sample_log)
      as Hno.
    cbv zeta in Hno. destruct Hno as (_ & _ & _ & Hjoin & _).
    exact Hjoin.
Defined.

End LogsFacts.

(** ** More on the resource spec builder *)

Module BuilderProps.
Import Js KubelessDeploy JsFacts Samples.

Lemma last_char_app (s t : string) :
  t ≠ "" → last_char (s +:+ t) = last_char t.
Proof.
  intros Ht. induction s as [|a s IH]; [reflexivity|].
  change (String a s +:+ t) with (String a (s +:+ t)).
  rewrite last_char_cons; [exact IH|].
  destruct s; [exact Ht | discriminate].
Qed.

Lemma ends_in_digit_Mi (s : string) : ends_in_digit (s +:+ "Mi") = false.
Proof.
  unfold ends_in_digit. rewrite last_char_app by discriminate. reflexivity.
Qed.

(** Normalising a memory value twice is the same as normalising it once:
    the value that [memoryWithSuffix] gives never ends in a digit, so it
    never gets a second [Mi]. *)
Theorem memoryWithSuffix_idempotent (memory : scalar) :
  ends_in_digit (toString (memoryWithSuffix memory)) = false
  ∧ memoryWithSuffix (memoryWithSuffix memory) = memoryWithSuffix memory.
Proof.
  assert (He : ends_in_digit (toString (memoryWithSuffix memory)) = false).
  { unfold memoryWithSuffix.
    destruct (match_digits_at_end (toString memory)) eqn:Hm.
    - apply ends_in_digit_Mi.
    - rewrite <- match_digits_at_end_ends. exact Hm. }
  split; [exact He|].
  unfold memoryWithSuffix at 1.
  rewrite match_digits_at_end_ends, He. reflexivity.
Qed.

(** The spec of the document depends neither on the namespace nor on the
    description nor on the labels: these only reach the metadata. *)
Lemma getFunctionDescription_spec_frame
    (funcName namespace namespace' runtime : string) (deps : option string)
    (funcContent handler : string) (desc desc' : option string)
    (labels labels' : option (list (string * string)))
    (env : option (list (string * scalar))) (memory : option scalar)
    (eventType : option string) (eventTrigger : option EventValue)
    (doc : ResourceDocument) :
  getFunctionDescription funcName namespace runtime deps funcContent
    handler desc labels env memory eventType eventTrigger = Ok doc →
  ∃ doc',
    getFunctionDescription funcName namespace' runtime deps funcContent
      handler desc' labels' env memory eventType eventTrigger = Ok doc'
    ∧ spec doc' = spec doc
    ∧ metadata_name (metadata doc') = metadata_name (metadata doc).
Proof.
  unfold getFunctionDescription.
  repeat case_bool_decide; try destruct (isEmpty eventTrigger);
    intros [= <-]; eexists; repeat split.
Qed.

(** The container overrides of the document, for an environment that
    lodash does not take for an array (it has no numeric [length]): there
    are none exactly when no environment is given and the memory size is
    missing, 0 or the empty text; otherwise the container is named after the
    function, lists the environment in its order with the values as texts,
    and carries resources exactly when the memory size is given. *)
Theorem getFunctionDescription_template
    (funcName namespace runtime : string) (deps : option string)
    (funcContent handler : string) (desc : option string)
    (labels : option (list (string * string)))
    (env : option (list (string * scalar))) (memory : option scalar)
    (eventType : option string) (eventTrigger : option EventValue)
    (doc : ResourceDocument) :
  (∀ e, env = Some e → isArrayLike e = false) →
  getFunctionDescription funcName namespace runtime deps funcContent
    handler desc labels env memory eventType eventTrigger = Ok doc →
  (spec_template (spec doc) = None ↔ env = None ∧ truthy_opt memory = false)
  ∧ ∀ container, spec_template (spec doc) = Some container →
      container_name container = funcName
      ∧ container_env container
        = (λ e, map (λ kv : string * scalar,
                       {| env_name := kv.1; env_value := toString kv.2 |}) e)
          <$> env
      ∧ (container_resources container = None ↔ truthy_opt memory = false).
Proof.
  unfold getFunctionDescription. intros _ Hdoc.
  assert (Ht : spec_template (spec doc)
               = if bool_decide (is_Some env) || truthy_opt memory
                 then Some {| container_name := funcName;
                              container_env :=
                                (λ e, map (λ kv : string * scalar,
                                             {| env_name := kv.1;
                                                env_value := toString kv.2 |})
                                        e) <$> env;
                              container_resources :=
                                match memory with
                                | Some m =>
                                    if truthy m
                                    then Some {| limits_memory :=
                                                   memoryWithSuffix m;
                                                 requests_memory :=
                                                   memoryWithSuffix m |}
                                    else None
                                | None => None
                                end |}
                 else None).
  { revert Hdoc.
    repeat case_bool_decide; try destruct (isEmpty eventTrigger);
      intros [= <-]; cbn; destruct env; reflexivity. }
  rewrite Ht. clear Ht Hdoc. split.
  - destruct env as [e|].
    + rewrite bool_decide_eq_true_2 by eauto. cbn.
      split; [discriminate | intros [? _]; discriminate].
    + rewrite bool_decide_eq_false_2 by (intros [? ?]; discriminate). cbn.
      destruct (truthy_opt memory); split; try done.
      intros [_ ?]; discriminate.
  - intros container.
    destruct (bool_decide (is_Some env) || truthy_opt memory);
      [|discriminate].
    intros [= <-]. cbn. repeat split.
    + destruct memory as [m|]; cbn; [|done].
      destruct (truthy m); [discriminate | done].
    + destruct memory as [m|]; cbn; [|done]. intros ->. reflexivity.
Qed.

Lemma getFunctionDescription_template_witness :
  ∃ doc,
    getFunctionDescription "hello" "default" "python2.7" None
      "def hello(): pass" "handler.hello" None None
      (Some [("PORT", Num 8080 I)]) (Some (Num 0 I)) (Some "http") None = Ok doc
    ∧ (spec_template (spec doc) = None
       ↔ Some [("PORT", Num 8080 I)] = None
         ∧ truthy_opt (Some (Num 0 I)) = false)
    ∧ ∀ container, spec_template (spec doc) = Some container →
        container_name container = "hello"
        ∧ container_env container
          = (λ e, map (λ kv : string * scalar,
                         {| env_name := kv.1; env_value := toString kv.2 |})
                    e)
            <$> Some [("PORT", Num 8080 I)]
        ∧ (container_resources container = None
           ↔ truthy_opt (Some (Num 0 I)) = false).
Proof.
  eexists. split; [reflexivity|].
  apply (getFunctionDescription_template "hello" "default" "python2.7"
           None "def hello(): pass" "handler.hello" None None
           (Some [("PORT", Num 8080 I)]) (Some (Num 0 I)) (Some "http") None).
  - intros e [= <-]. reflexivity.
  - reflexivity.
Defined.

End BuilderProps.

(** ** The files of a runtime *)

Module RuntimeProps.
Import Js KubelessDeploy JsFacts Samples.

(** The first piece of a split holds no separator, and the text is that
    piece, alone or followed by a separator and the rest. *)
Lemma split_first (c : ascii) (s : string) :
  ∃ piece rest,
    split c s = piece :: rest
    ∧ includes (String c "") piece = false
    ∧ (s = piece ∨ ∃ tail, s = piece +:+ String c tail).
Proof.
  induction s as [|a s (piece & rest & Hs & Hp & Htail)].
  - exists "", []. repeat split. by left.
  - cbn [split]. case_bool_decide as Hac.
    + subst a. exists "", (split c s). repeat split. right. by exists s.
    + rewrite Hs. exists (String a piece), rest. repeat split.
      * rewrite includes_char, Hp, bool_decide_eq_false_2 by assumption.
        reflexivity.
      * destruct Htail as [-> | (tail & ->)]; [by left|].
        right. by exists tail.
Qed.

(** [getRuntimeFilenames]: a runtime that names none of [python], [node]
    and [ruby] is refused; for the others the handler file is the part of
    the handler before its first dot, which holds no dot itself, with the
    extension of the runtime, next to the dependency file of the runtime. *)
Theorem getRuntimeFilenames_files (runtime handler : string) :
  (includes "python" runtime || includes "node" runtime
   || includes "ruby" runtime = false →
   getRuntimeFilenames runtime handler
   = Throw ("The runtime " +:+ runtime +:+ " is not supported yet"))
  ∧ (includes "python" runtime || includes "node" runtime
     || includes "ruby" runtime = true →
     ∃ names ext,
       getRuntimeFilenames runtime handler = Ok names
       ∧ file_handler names = handler_module handler +:+ ext
       ∧ (ext, file_deps names)
         ∈ [(".py", "requirements.txt"); (".js", "package.json");
            (".rb", "Gemfile")])
  ∧ includes "." (handler_module handler) = false
  ∧ (handler = handler_module handler
     ∨ ∃ rest, handler = handler_module handler +:+ "." +:+ rest).
Proof.
  unfold getRuntimeFilenames. repeat split.
  - intros [[Hp Hn]%orb_false_iff Hr]%orb_false_iff.
    rewrite Hp, Hn, Hr. reflexivity.
  - intros Hsome.
    destruct (includes "python" runtime);
      [eexists _, ".py"; repeat split; apply list_elem_of_In; cbn; auto|].
    destruct (includes "node" runtime);
      [eexists _, ".js"; repeat split; apply list_elem_of_In; cbn; auto|].
    destruct (includes "ruby" runtime); [|discriminate].
    eexists _, ".rb"; repeat split; apply list_elem_of_In; cbn; auto.
  - unfold handler_module.
    destruct (split_first "." handler) as (piece & rest & -> & Hp & _).
    exact Hp.
  - unfold handler_module.
    destruct (split_first "." handler) as (piece & rest & -> & _ & Ht).
    exact Ht.
Qed.

Lemma getRuntimeFilenames_files_witness :
  ∃ names ext,
    getRuntimeFilenames "python2.7" "handler.hello" = Ok names
    ∧ file_handler names = handler_module "handler.hello" +:+ ext
    ∧ (ext, file_deps names)
      ∈ [(".py", "requirements.txt"); (".js", "package.json");
         (".rb", "Gemfile")].
Proof.
  destruct (getRuntimeFilenames_files "python2.7" "handler.hello")
    as (_ & Hok & _).
  apply Hok. reflexivity.
Defined.

End RuntimeProps.

(** ** More on the readiness poller *)

Module PollerProps.
Import Js KubelessDeploy JsFacts PollerFacts Samples.

(** What the loop over the pods does to the poller: it only adds error
    lines to the log; when it adds none, the interval and the exit code are
    as before; when it adds one, the poller is [Failed], the exit code is
    nonzero (1 if it was 0) and not all pods were counted as running. *)
Lemma check_pod_effect (pod : Pod) (n : nat) (st : Poller) :
  let r := check_pod pod (n, st) in
  retries r.1.2 = retries st
  ∧ successfulCount r.1.2 = successfulCount st
  ∧ ∃ k,
      cli_log r.1.2
      = cli_log st ++ replicate k "ERROR: Failed to deploy the function"
      ∧ (k = 0 → cleared r.1.2 = cleared st ∧ exitCode r.1.2 = exitCode st
                 ∧ r.1.1 ≤ n + 1)
      ∧ (0 < k →
         cleared r.1.2 = Some Failed
         ∧ exitCode r.1.2
           = (if bool_decide (exitCode st = 0%Z) then 1%Z else exitCode st)
         ∧ r.1.1 < n + 1).
Proof.
  unfold check_pod.
  destruct (containerStatuses pod) as [[|status rest]|]; cbn;
    try (repeat split; exists 0; cbn; rewrite app_nil_r;
         repeat split; (lia || done)).
  destruct (ready status); cbn;
    [repeat split; exists 0; cbn; rewrite app_nil_r; repeat split; lia|].
  case_bool_decide; cbn.
  - repeat split. exists 1. cbn. repeat split; lia.
  - repeat split. exists 0. cbn. rewrite app_nil_r. repeat split; lia.
Qed.

Lemma each_pod_effect (pods : list Pod) (n : nat) (st : Poller) :
  let r := each_pod pods (n, st) in
  retries r.1.2 = retries st
  ∧ successfulCount r.1.2 = successfulCount st
  ∧ ∃ k,
      cli_log r.1.2
      = cli_log st ++ replicate k "ERROR: Failed to deploy the function"
      ∧ (k = 0 → cleared r.1.2 = cleared st ∧ exitCode r.1.2 = exitCode st
                 ∧ r.1.1 ≤ n + length pods)
      ∧ (0 < k →
         cleared r.1.2 = Some Failed
         ∧ exitCode r.1.2
           = (if bool_decide (exitCode st = 0%Z) then 1%Z else exitCode st)
         ∧ r.1.1 < n + length pods).
Proof.
  revert n st. induction pods as [|pod pods IH]; intros n st.
  - cbn. repeat split. exists 0. cbn. rewrite app_nil_r. repeat split; lia.
  - cbn [each_pod length].
    pose proof (check_pod_effect pod n st) as (Hr & Hs & k1 & Hl & H0 & H1).
    cbn zeta in Hr, Hs, Hl, H0, H1.
    destruct (check_pod pod (n, st)) as [[n1 st1] [e|]]; cbn in *.
    + repeat split; try assumption. exists k1. repeat split.
      * assumption.
      * apply H0; assumption.
      * apply H0; assumption.
      * destruct (H0 ltac:(assumption)) as (_ & _ & ?). lia.
      * apply H1; assumption.
      * apply H1; assumption.
      * destruct (H1 ltac:(assumption)) as (_ & _ & ?). lia.
    + pose proof (IH n1 st1) as (Hr2 & Hs2 & k2 & Hl2 & H02 & H12).
      cbn zeta in Hr2, Hs2, Hl2, H02, H12.
      split; [congruence|]. split; [congruence|].
      exists (k1 + k2). split.
      { rewrite Hl2, Hl, <- app_assoc, replicate_add. reflexivity. }
      split.
      * intros Hk. assert (k1 = 0) as Hk1 by lia. assert (k2 = 0) as Hk2 by lia.
        destruct (H0 Hk1) as (? & ? & ?). destruct (H02 Hk2) as (? & ? & ?).
        repeat split; (congruence || lia).
      * intros Hk. destruct (decide (k2 = 0)) as [Hk2 | Hk2].
        -- assert (0 < k1) as Hk1 by lia.
           destruct (H1 Hk1) as (? & ? & ?). destruct (H02 Hk2) as (? & ? & ?).
           repeat split; (congruence || lia).
        -- destruct (H12 ltac:(lia)) as (Hc & He & Hn).
           split; [exact Hc|]. split; [|].
           ++ rewrite He. destruct (decide (k1 = 0)) as [Hk1 | Hk1].
              ** destruct (H0 Hk1) as (_ & -> & _). reflexivity.
              ** destruct (H1 ltac:(lia)) as (_ & -> & _).
                 repeat case_bool_decide; (lia || done).
           ++ destruct (decide (k1 = 0)) as [Hk1 | Hk1].
              ** destruct (H0 Hk1) as (_ & _ & ?). lia.
              ** destruct (H1 ltac:(lia)) as (_ & _ & ?). lia.
Qed.

Ltac split_invariant :=
  unfold poller_invariant;
  refine (conj _ (conj _ (conj _ (conj _ (conj _ (conj _ _)))))).

Lemma invariant_log_line (funcName line : string) (exit : Z) (st : Poller) :
  line ≠ success_line funcName →
  poller_invariant funcName exit st →
  poller_invariant funcName exit (log_line line st).
Proof.
  intros Hline (Ir & Is & Ist & Ilog & Ig & If & Ie).
  split_invariant; cbn; try assumption.
  rewrite Ilog. split.
  - intros Hin. apply elem_of_app. by left.
  - intros [Hin | Hin%list_elem_of_singleton]%elem_of_app; [done|].
    congruence.
Qed.

Lemma invariant_each_pod (funcName : string) (exit : Z) (pods : list Pod)
    (n : nat) (st : Poller) :
  cleared st = None →
  poller_invariant funcName exit st →
  poller_invariant funcName exit (each_pod pods (n, st)).1.2
  ∧ (cleared (each_pod pods (n, st)).1.2 = None
     ∨ cleared (each_pod pods (n, st)).1.2 = Some Failed
       ∧ (each_pod pods (n, st)).1.1 < n + length pods).
Proof.
  intros Hc Hinv.
  pose proof (each_pod_effect pods n st) as (Hr & Hs & k & Hl & H0 & H1).
  cbn zeta in Hr, Hs, Hl, H0, H1.
  destruct (each_pod pods (n, st)) as [[n' st'] exn]. cbn in *.
  destruct Hinv as (Ir & Is & Ist & Ilog & Ig & If & Ie).
  assert (Hcount : successfulCount st ≠ 2) by (intros ?%Ist; congruence).
  assert (Hlog : success_line funcName ∉ cli_log st').
  { rewrite Hl. intros [Hin%Ilog | Hin]%elem_of_app; [congruence|].
    apply elem_of_replicate in Hin as [Hin _]. discriminate Hin. }
  assert (Hexit : exitCode st = exit) by (apply Ie; congruence).
  destruct (decide (k = 0)) as [Hk | Hk].
  - destruct (H0 Hk) as (Hc' & He' & _). split; [|left; congruence].
    split_invariant.
    + lia.
    + lia.
    + split; intros; congruence.
    + split; intros; [congruence | done].
    + intros; congruence.
    + intros; congruence.
    + intros _. congruence.
  - destruct (H1 ltac:(lia)) as (Hc' & He' & Hn). split; [|right; auto].
    split_invariant.
    + lia.
    + lia.
    + split; intros; congruence.
    + split; intros; [congruence | done].
    + intros; congruence.
    + intros _. rewrite He', Hexit. reflexivity.
    + intros; congruence.
Qed.

Lemma invariant_after_pods (funcName : string) (exit : Z) (verbose : bool)
    (functionPods : list Pod) (runningPods : nat) (st : Poller) :
  poller_invariant funcName exit st →
  cleared st = None
  ∨ cleared st = Some Failed ∧ runningPods ≠ length functionPods →
  poller_invariant funcName exit
    (after_pods funcName verbose functionPods runningPods st).
Proof.
  intros Hinv Hc. unfold after_pods.
  case_bool_decide as Hfull.
  - destruct Hc as [Hc | [_ Hne]]; [|exfalso; apply Hne; exact Hfull].
    cbn. case_bool_decide as Htwo;
      destruct Hinv as (Ir & Is & Ist & Ilog & Ig & If & Ie);
      assert (Hexit : exitCode st = exit) by (apply Ie; congruence);
      assert (Hcount : successfulCount st ≠ 2) by (intros ?%Ist; congruence);
      assert (Hnl : success_line funcName ∉ cli_log st)
        by (intros ?%Ilog; congruence).
    + split_invariant; cbn.
      * lia.
      * lia.
      * done.
      * split; [|done]. intros _.
        apply elem_of_app. right. by apply list_elem_of_singleton.
      * intros; congruence.
      * intros; congruence.
      * intros _. exact Hexit.
    + split_invariant; cbn.
      * lia.
      * lia.
      * split; intros; [congruence | lia].
      * split; intros; [congruence | done].
      * intros; congruence.
      * intros; congruence.
      * intros _. exact Hexit.
  - destruct verbose; [|assumption].
    case_bool_decide;
      destruct Hinv as (Ir & Is & Ist & Ilog & Ig & If & Ie);
      assert (Hns : cleared st ≠ Some Stable)
        by (destruct Hc as [Hc | [Hc _]]; congruence);
      assert (Hnl : success_line funcName ∉ cli_log st)
        by (intros ?%Ilog; congruence).
    + split_invariant; cbn.
      * lia.
      * lia.
      * split; intros; [congruence | lia].
      * split; [done|].
        intros [Hin | Hin%list_elem_of_singleton]%elem_of_app;
          [contradiction | discriminate Hin].
      * assumption.
      * assumption.
      * assumption.
    + split_invariant; cbn.
      * lia.
      * lia.
      * split; intros; [congruence | lia].
      * split; intros; [congruence | done].
      * assumption.
      * assumption.
      * assumption.
Qed.

Lemma invariant_tick (funcName : string) (requestMoment exit : Z)
    (verbose : bool) (st : Poller) (response : PodsResponse) :
  cleared st = None →
  poller_invariant funcName exit st →
  poller_invariant funcName exit
    (tick funcName requestMoment verbose st response).1.
Proof.
  intros Hc Hinv. unfold tick. case_bool_decide as Hretries.
  - cbn [fst]. destruct Hinv as (Ir & Is & Ist & Ilog & Ig & If & Ie).
    assert (Hcount : successfulCount st ≠ 2) by (intros ?%Ist; congruence).
    assert (Hexit : exitCode st = exit) by (apply Ie; congruence).
    split_invariant; cbn.
    + lia.
    + lia.
    + split; intros; [congruence | lia].
    + split; [done|].
      intros [Hin%Ilog | Hin%list_elem_of_singleton]%elem_of_app;
        [congruence | discriminate Hin].
    + intros _. lia.
    + intros; congruence.
    + intros _. exact Hexit.
  - destruct response as [message | items].
    { destruct (includes _ message); cbn [fst]; [|assumption].
      apply invariant_log_line; [discriminate | assumption]. }
    destruct (filter_pods funcName requestMoment items) as [[|p ps]|e];
      cbn [fst]; [| |assumption].
    + destruct Hinv as (Ir & Is & Ist & Ilog & Ig & If & Ie).
      assert (Hcount : successfulCount st ≠ 2) by (intros ?%Ist; congruence).
      assert (Hexit : exitCode st = exit) by (apply Ie; congruence).
      split_invariant; cbn.
      * lia.
      * lia.
      * split; intros; [congruence | lia].
      * split; [intros; congruence|].
        intros [Hin%Ilog | Hin%list_elem_of_singleton]%elem_of_app;
          [congruence | discriminate Hin].
      * intros; congruence.
      * intros; congruence.
      * intros _. exact Hexit.
    + pose proof (invariant_each_pod funcName exit (p :: ps) 0 st Hc Hinv)
        as [Hinv1 Hc1].
      destruct (each_pod (p :: ps) (0, st)) as [[n st1] [e|]];
        cbn [fst snd] in *; [assumption|].
      apply invariant_after_pods; [assumption|].
      destruct Hc1 as [Hc1 | [Hc1 Hn]]; [by left | right]. split; [done | lia].
Qed.

Lemma invariant_init (funcName : string) (exit : Z) :
  poller_invariant funcName exit (init_poller exit).
Proof.
  unfold poller_invariant. cbn. repeat split; try done; try lia.
  intros Hin. by apply elem_of_nil in Hin.
Qed.

Lemma invariant_run (funcName : string) (requestMoment exit : Z)
    (verbose : bool) (responses : list PodsResponse) (st : Poller) :
  poller_invariant funcName exit st →
  poller_invariant funcName exit
    (waitForDeployment funcName requestMoment verbose st responses).1.
Proof.
  revert st. induction responses as [|response rest IH]; intros st Hinv;
    [assumption|].
  cbn [waitForDeployment]. destruct (cleared st) eqn:Hc; [assumption|].
  pose proof (invariant_tick funcName requestMoment exit verbose st response
                Hc Hinv) as Hinv'.
  destruct (tick funcName requestMoment verbose st response) as [st' [e|]];
    cbn [fst] in *; [assumption|]. by apply IH.
Qed.

(** The exit code of the process after any run of a poller that was
    started when the code was [exit]: the poller changes it only by ending
    in [Failed], and then the code is nonzero, a code that was nonzero
    before being kept and 0 becoming 1. *)
Theorem waitForDeployment_exit_code (funcName : string) (requestMoment : Z)
    (verbose : bool) (exit : Z) (responses : list PodsResponse) :
  let st :=
    (waitForDeployment funcName requestMoment verbose (init_poller exit)
       responses).1 in
  (cleared st ≠ Some Failed → exitCode st = exit)
  ∧ (cleared st = Some Failed →
     exitCode st ≠ 0%Z
     ∧ (exit ≠ 0%Z → exitCode st = exit)
     ∧ (exit = 0%Z → exitCode st = 1%Z)).
Proof.
  intros st.
  pose proof (invariant_run funcName requestMoment exit verbose responses
                (init_poller exit) (invariant_init funcName exit))
    as (_ & _ & _ & _ & _ & If & Ie).
  fold st in If, Ie. split; [exact Ie|].
  intros Hf. rewrite (If Hf). case_bool_decide; repeat split; (lia || done).
Qed.

(** The counters after any run of a fresh poller: at most 4 retries and a
    stability counter of at most 2; the poller ended in [Stable] exactly
    when the stability counter is 2, and exactly when the success line was
    logged; a poller that gave up counted 4 retries. *)
Theorem waitForDeployment_counters (funcName : string) (requestMoment : Z)
    (verbose : bool) (exit : Z) (responses : list PodsResponse) :
  let st :=
    (waitForDeployment funcName requestMoment verbose (init_poller exit)
       responses).1 in
  retries st ≤ 4
  ∧ successfulCount st ≤ 2
  ∧ (cleared st = Some Stable ↔ successfulCount st = 2)
  ∧ (cleared st = Some Stable ↔ success_line funcName ∈ cli_log st)
  ∧ (cleared st = Some GivenUp → retries st = 4).
Proof.
  intros st.
  pose proof (invariant_run funcName requestMoment exit verbose responses
                (init_poller exit) (invariant_init funcName exit))
    as (Ir & Is & Ist & Ilog & Ig & _ & _).
  repeat split; (assumption || apply Ist || apply Ilog).
Qed.

Lemma filter_pods_throws (funcName : string) (requestMoment : Z)
    (items : list Pod) (pod : Pod) :
  pod ∈ items → pod_labels pod = None →
  filter_pods funcName requestMoment items
  = Throw "TypeError: Cannot read property 'function' of undefined".
Proof.
  induction items as [|p items IH]; intros Hin Hnone;
    [by apply elem_of_nil in Hin|].
  cbn [filter_pods]. unfold is_function_pod.
  apply elem_of_cons in Hin as [<- | Hin].
  - rewrite Hnone. reflexivity.
  - destruct (pod_labels p); [|reflexivity]. cbn.
    rewrite (IH Hin Hnone). reflexivity.
Qed.

(** The pods of the function: when every listed pod has labels, the pods
    whose [function] label is the function and whose creation is not before
    the request, in the order of the list; a pod without labels anywhere in
    the list makes the filter throw. *)
Theorem filter_pods_spec (funcName : string) (requestMoment : Z)
    (items : list Pod) :
  ((∀ pod, pod ∈ items → is_Some (pod_labels pod)) →
   filter_pods funcName requestMoment items
   = Ok (List.filter
           (λ pod,
              bool_decide (pod_labels pod ≫= label "function" = Some funcName)
              && bool_decide (requestMoment ≤ creationTimestamp pod)%Z)
           items))
  ∧ (∀ pod, pod ∈ items → pod_labels pod = None →
     filter_pods funcName requestMoment items
     = Throw "TypeError: Cannot read property 'function' of undefined").
Proof.
  split.
  - induction items as [|p items IH]; intros Hall; [reflexivity|].
    cbn [filter_pods List.filter]. unfold is_function_pod.
    destruct (Hall p ltac:(left)) as [labels Hl]. rewrite Hl. cbn.
    rewrite IH by (intros q Hq; apply Hall; by right). cbn.
    destruct (_ && _); reflexivity.
  - intros pod. apply filter_pods_throws.
Qed.

Lemma filter_pods_spec_witness :
  filter_pods "hello" 1504605600000
    [hello_pod true 0;
     {| pod_labels := Some [("function", "other")];
        creationTimestamp := 1504605601000; containerStatuses := None |};
     {| pod_labels := Some [("function", "hello")];
        creationTimestamp := 1504605599000; containerStatuses := None |}]
  = Ok [hello_pod true 0].
Proof.
  destruct (filter_pods_spec "hello" 1504605600000
              [hello_pod true 0;
               {| pod_labels := Some [("function", "other")];
                  creationTimestamp := 1504605601000;
                  containerStatuses := None |};
               {| pod_labels := Some [("function", "hello")];
                  creationTimestamp := 1504605599000;
                  containerStatuses := None |}]) as [Hkept _].
  apply Hkept. intros pod Hpod. apply list_elem_of_In in Hpod. cbn in Hpod.
  destruct Hpod as [<- | [<- | [<- | []]]]; cbn; eauto.
Defined.

(** A listed pod without labels makes the tick throw a [TypeError], with
    the poller as it was: the interval stays set and nothing is counted. *)
Theorem tick_unlabelled_pod_throws (funcName : string) (requestMoment : Z)
    (verbose : bool) (st : Poller) (items : list Pod) (pod : Pod) :
  retries st ≤ 3 →
  pod ∈ items →
  pod_labels pod = None →
  tick funcName requestMoment verbose st (PodsOk items)
  = (st, Some "TypeError: Cannot read property 'function' of undefined").
Proof.
  intros Hr Hin Hnone. unfold tick.
  rewrite bool_decide_eq_false_2 by lia.
  rewrite (filter_pods_throws funcName requestMoment items pod Hin Hnone).
  reflexivity.
Qed.

Lemma tick_unlabelled_pod_throws_witness :
  tick "hello" 1504605600000 false (init_poller 0)
    (PodsOk [hello_pod true 0;
             {| pod_labels := None; creationTimestamp := 1504605601000;
                containerStatuses := None |}])
  = (init_poller 0,
     Some "TypeError: Cannot read property 'function' of undefined").
Proof.
  apply (tick_unlabelled_pod_throws "hello" 1504605600000 false
           (init_poller 0) _
           {| pod_labels := None; creationTimestamp := 1504605601000;
              containerStatuses := None |}).
  - cbn. lia.
  - apply list_elem_of_In. cbn. auto.
  - reflexivity.
Defined.

Lemma replicate_snoc {A} (n : nat) (x : A) :
  replicate n x ++ [x] = replicate (S n) x.
Proof. induction n as [|n IH]; cbn; [reflexivity | by rewrite IH]. Qed.

(** Time-outs of the pod listing are not counted: whatever their number,
    they leave the counters, the interval and the exit code as they were and
    only add one line each to the log.  Another error of the listing
    escapes from the tick and ends the run, the poller being as it was. *)
Theorem waitForDeployment_timeouts (funcName : string) (requestMoment : Z)
    (verbose : bool) (st : Poller) (responses : list PodsResponse) :
  retries st ≤ 3 →
  cleared st = None →
  Forall (λ response,
            ∃ message, response = PodsErr message
                       ∧ includes "request timed out" message = true)
    responses →
  waitForDeployment funcName requestMoment verbose st responses
  = ({| retries := retries st; successfulCount := successfulCount st;
        previousPodStatus := previousPodStatus st; cleared := None;
        exitCode := exitCode st;
        cli_log := cli_log st
                   ++ replicate (length responses)
                        "Request timed out. Retrying..." |}, None)
  ∧ ∀ message rest,
      includes "request timed out" message = false →
      waitForDeployment funcName requestMoment verbose st
        (PodsErr message :: rest) = (st, Some message).
Proof.
  intros Hr Hc Hall. split.
  - revert st Hr Hc. induction Hall as [|response rest (m & -> & Hm) _ IH];
      intros st Hr Hc.
    + destruct st. cbn in *. subst. by rewrite app_nil_r.
    + cbn [waitForDeployment length]. rewrite Hc. unfold tick.
      rewrite bool_decide_eq_false_2 by lia. rewrite Hm.
      rewrite IH by (cbn; assumption). cbn.
      rewrite <- app_assoc. reflexivity.
  - intros message rest Hm. cbn [waitForDeployment]. rewrite Hc.
    unfold tick. rewrite bool_decide_eq_false_2 by lia. rewrite Hm.
    reflexivity.
Qed.

Lemma waitForDeployment_timeouts_witness :
  waitForDeployment "hello" 1504605600000 false (init_poller 0)
    [PodsErr "Error: request timed out"; PodsErr "Error: request timed out"]
  = ({| retries := 0; successfulCount := 0; previousPodStatus := None;
        cleared := None; exitCode := 0;
        cli_log := ["Request timed out. Retrying...";
                    "Request timed out. Retrying..."] |}, None).
Proof.
  destruct (waitForDeployment_timeouts "hello" 1504605600000 false
              (init_poller 0)
              [PodsErr "Error: request timed out";
               PodsErr "Error: request timed out"]) as [Hrun _].
  - cbn. lia.
  - reflexivity.
  - repeat constructor; eexists; split; reflexivity.
  - exact Hrun.
Defined.

Lemma gives_up_from (funcName : string) (requestMoment : Z) (verbose : bool)
    (responses : list PodsResponse) (k c : nat) (p : option (list string))
    (e : Z) (l : list string) :
  k ≤ 4 →
  Forall (λ response,
            ∃ items, response = PodsOk items
                     ∧ filter_pods funcName requestMoment items = Ok [])
    responses →
  waitForDeployment funcName requestMoment verbose
    {| retries := k; successfulCount := c; previousPodStatus := p;
       cleared := None; exitCode := e; cli_log := l |} responses
  = (if bool_decide (k + length responses ≤ 4) then
       {| retries := k + length responses; successfulCount := c;
          previousPodStatus := p; cleared := None; exitCode := e;
          cli_log :=
            l ++ replicate (length responses)
                   ("Unable to find any running pod for " +:+ funcName
                    +:+ ". Retrying...") |}
     else
       {| retries := 4; successfulCount := c; previousPodStatus := p;
          cleared := Some GivenUp; exitCode := e;
          cli_log :=
            l ++ replicate (4 - k)
                   ("Unable to find any running pod for " +:+ funcName
                    +:+ ". Retrying...")
              ++ ["Giving up, unable to retrieve the status of the "
                  +:+ funcName +:+ " deployment. "] |},
     None).
Proof.
  intros Hk Hall. revert k l Hk.
  induction Hall as [|response rest (items & -> & Hf) _ IH]; intros k l Hk.
  - cbn. rewrite bool_decide_eq_true_2 by lia.
    rewrite Nat.add_0_r, app_nil_r. reflexivity.
  - cbn [waitForDeployment cleared length]. unfold tick. cbn [retries].
    destruct (decide (3 < k)) as [Hgt | Hle].
    + assert (k = 4) as -> by lia.
      rewrite bool_decide_eq_true_2 by assumption.
      rewrite waitForDeployment_cleared by (cbn; eauto).
      rewrite bool_decide_eq_false_2 by lia. reflexivity.
    + rewrite bool_decide_eq_false_2 by assumption. rewrite Hf.
      unfold log_line, set_retries. cbn.
      rewrite IH by lia.
      destruct (decide (k + S (length rest) ≤ 4)) as [Hfit | Hover].
      * rewrite !bool_decide_eq_true_2 by lia.
        rewrite <- app_assoc. cbn.
        replace (k + S (length rest)) with (S (k + length rest)) by lia.
        reflexivity.
      * rewrite !bool_decide_eq_false_2 by lia.
        replace (4 - k) with (S (4 - S k)) by lia.
        rewrite <- app_assoc. reflexivity.
Qed.

(** A fresh poller that never finds a pod of the function (the lists are
    empty or hold only pods of other functions or from before the request)
    counts up to 4 such ticks and gives up on the fifth, without touching
    the exit code; later responses are not read. *)
Theorem waitForDeployment_gives_up (funcName : string) (requestMoment : Z)
    (verbose : bool) (exit : Z) (responses : list PodsResponse) :
  Forall (λ response,
            ∃ items, response = PodsOk items
                     ∧ filter_pods funcName requestMoment items = Ok [])
    responses →
  waitForDeployment funcName requestMoment verbose (init_poller exit)
    responses
  = (if bool_decide (length responses ≤ 4) then
       {| retries := length responses; successfulCount := 0;
          previousPodStatus := None; cleared := None; exitCode := exit;
          cli_log :=
            replicate (length responses)
              ("Unable to find any running pod for " +:+ funcName
               +:+ ". Retrying...") |}
     else
       {| retries := 4; successfulCount := 0; previousPodStatus := None;
          cleared := Some GivenUp; exitCode := exit;
          cli_log :=
            replicate 4
              ("Unable to find any running pod for " +:+ funcName
               +:+ ". Retrying...")
            ++ ["Giving up, unable to retrieve the status of the "
                +:+ funcName +:+ " deployment. "] |},
     None).
Proof.
  intros Hall. unfold init_poller.
  rewrite (gives_up_from funcName requestMoment verbose responses 0 0 None
             exit [] ltac:(lia) Hall).
  reflexivity.
Qed.

Lemma waitForDeployment_gives_up_witness :
  let foreign :=
    PodsOk [{| pod_labels := Some [("function", "other")];
               creationTimestamp := 1504605601000;
               containerStatuses := None |}] in
  cleared
    (waitForDeployment "hello" 1504605600000 false (init_poller 0)
       [PodsOk []; foreign; PodsOk []; foreign; PodsOk []; PodsOk []]).1
  = Some GivenUp.
Proof.
  intros foreign.
  rewrite (waitForDeployment_gives_up "hello" 1504605600000 false 0
             [PodsOk []; foreign; PodsOk []; foreign; PodsOk []; PodsOk []]).
  - reflexivity.
  - repeat constructor; eexists; split; reflexivity.
Defined.

End PollerProps.

(** ** More on the reconciler *)

Module ReconcilerProps.
Import Js KubelessDeploy JsFacts ReconcilerFacts BuilderProps Samples.

(** A change of the description or of the labels of a function alone is
    not deployed: these reach only the metadata of the document, and the
    function stored in the namespace, which is listed, is found unchanged. *)
Theorem deployEvent_metadata_change_is_skipped (opts : Options)
    (provider : Provider) (helpers : Helpers) (cluster : Cluster) (clock : Z)
    (name : string) (before after : FunctionDefinition)
    (functionContent : string) (requirementsContent : option string)
    (event : Event) (stored : ResourceDocument)
    (items : list ResourceDocument) :
  funcs_of_event provider helpers name before functionContent
    requirementsContent event = Ok stored →
  fd_handler after = fd_handler before →
  fd_namespace after = fd_namespace before →
  fd_environment after = fd_environment before →
  fd_memorySize after = fd_memorySize before →
  functions_get cluster (metadata_namespace (metadata stored)) = inr items →
  stored ∈ items →
  deployEvent opts provider helpers cluster clock name after
    functionContent requirementsContent event
  = {| actions :=
         [ApiFunctionsGet;
          CliLog ("Function " +:+ name
                  +:+ " has not changed. Skipping deployment")];
       pushed := [];
       chain_end := Completed |}.
Proof.
  intros Hstored Hh Hns He Hm Hget Hin.
  assert (Hsame : function_namespace provider helpers after
                  = function_namespace provider helpers before).
  { unfold function_namespace. by rewrite Hns. }
  assert (Hmeta : metadata_namespace (metadata stored)
                  = function_namespace provider helpers after).
  { rewrite Hsame. revert Hstored.
    unfold funcs_of_event, getFunctionDescription.
    repeat case_bool_decide; try destruct (isEmpty _);
      intros [= <-]; reflexivity. }
  rewrite Hmeta in Hget. unfold funcs_of_event in Hstored.
  destruct (getFunctionDescription_spec_frame _ _
              (function_namespace provider helpers after) _ _ _ _ _
              (fd_description after) _ (fd_labels after) _ _ _ _ _ Hstored)
    as (funcs & Hfuncs & Hspec & Hname).
  unfold deployEvent, funcs_of_event. rewrite Hh, He, Hm, Hfuncs, Hget.
  rewrite (existingSameFunction_true items funcs stored Hin); [reflexivity|..];
    congruence.
Qed.

Lemma deployEvent_metadata_change_is_skipped_witness :
  deployEvent (options true false) (provider None) helpers
    (cluster [hello_document "def hello(): pass" None] None) clock "hello"
    {| fd_handler := Some "handler.hello"; fd_namespace := None;
       fd_events := None; fd_description := Some "says hello";
       fd_labels := Some [("team", "greeters")]; fd_environment := None;
       fd_memorySize := None |}
    "def hello(): pass" None [("http", EvObj (Some "/") None)]
  = {| actions :=
         [ApiFunctionsGet;
          CliLog ("Function " +:+ "hello"
                  +:+ " has not changed. Skipping deployment")];
       pushed := [];
       chain_end := Completed |}.
Proof.
  apply (deployEvent_metadata_change_is_skipped _ _ _ _ _ _ (hello None) _ _
           _ _ (hello_document "def hello(): pass" None)
           [hello_document "def hello(): pass" None]); try reflexivity.
  apply list_elem_of_singleton. reflexivity.
Defined.

(** A forced redeploy: when the cluster lists a function of that name,
    none with an equal spec, and [force] is set, the reconciler replaces
    the function with a put call and posts nothing.  If the cluster accepts
    the call, the poller is started without a namespace; if not, the error
    is recorded and no poller is started.  No ingress rule is touched. *)
Theorem deployEvent_forced_update (opts : Options)
    (provider : Provider) (helpers : Helpers) (cluster : Cluster) (clock : Z)
    (name : string) (description : FunctionDefinition)
    (functionContent : string) (requirementsContent : option string)
    (event : Event) (funcs : ResourceDocument)
    (items : list ResourceDocument) (item : ResourceDocument) :
  funcs_of_event provider helpers name description functionContent
    requirementsContent event = Ok funcs →
  functions_get cluster (function_namespace provider helpers description)
  = inr items →
  item ∈ items →
  metadata_name (metadata item) = metadata_name (metadata funcs) →
  (∀ item', item' ∈ items →
     metadata_name (metadata item') = metadata_name (metadata funcs) →
     spec item' ≠ spec funcs) →
  force opts = true →
  deployEvent opts provider helpers cluster clock name description
    functionContent requirementsContent event
  = match functions_put cluster name funcs with
    | None =>
        {| actions :=
             [ApiFunctionsGet; ApiFunctionsPut name funcs;
              StartPoller name (requestMoment_at clock) None];
           pushed := [];
           chain_end := Completed |}
    | Some err =>
        {| actions := [ApiFunctionsGet; ApiFunctionsPut name funcs];
           pushed :=
             [ErrorObject
                ("Unable to update the function " +:+ name +:+ ". Received:"
                 +:+ newline +:+ "  Code: " +:+ show_code (err_code err)
                 +:+ newline +:+ "  Message: " +:+ err_message err)];
           chain_end := Completed |}
    end.
Proof.
  intros Hfuncs Hget Hin Hname Hdiff Hforce.
  pose proof (getFunctionDescription_name _ _ _ _ _ _ _ _ _ _ _ _ _ Hfuncs)
    as Hn.
  unfold deployEvent. rewrite Hfuncs, Hget.
  rewrite (existingSameFunction_false _ _ Hdiff).
  rewrite (existingFunction_true _ _ _ Hin Hname), Hforce.
  cbn [andb]. unfold redeployFunctionAndWait. rewrite Hn.
  destruct (functions_put cluster name funcs); reflexivity.
Qed.

Lemma deployEvent_forced_update_witness :
  deployEvent (options true false) (provider None) helpers
    (cluster [hello_document "def hello(): return 1" None] None) clock
    "hello" (hello None) "def hello(): pass" None
    [("http", EvObj (Some "/") None)]
  = {| actions :=
         [ApiFunctionsGet;
          ApiFunctionsPut "hello" (hello_document "def hello(): pass" None);
          StartPoller "hello" (requestMoment_at clock) None];
       pushed := [];
       chain_end := Completed |}.
Proof.
  apply (deployEvent_forced_update (options true false) (provider None)
           helpers
           (cluster [hello_document "def hello(): return 1" None] None)
           clock "hello" (hello None) "def hello(): pass" None
           [("http", EvObj (Some "/") None)]
           (hello_document "def hello(): pass" None)
           [hello_document "def hello(): return 1" None]
           (hello_document "def hello(): return 1" None));
    try reflexivity.
  - apply list_elem_of_singleton. reflexivity.
  - intros item' ->%list_elem_of_singleton _. discriminate.
Defined.

Lemma existingFunction_false (items : list ResourceDocument)
    (funcs : ResourceDocument) :
  (∀ item, item ∈ items →
     metadata_name (metadata item) ≠ metadata_name (metadata funcs)) →
  existingFunction items funcs = false.
Proof.
  intros Hall. apply not_true_is_false.
  intros (item & Hin & Hb)%existsb_exists.
  apply bool_decide_eq_true in Hb.
  eapply Hall; eauto. by apply list_elem_of_In.
Qed.

(** The ingress step posts at most one rule and neither submits a function
    nor starts a poller. *)
Lemma ingress_step_actions (opts : Options) (provider : Provider)
    (helpers : Helpers) (cluster : Cluster) (name : string) (event : Event)
    (namespace : string) (deployed redeployed : bool) :
  let step :=
    ingress_step opts provider helpers cluster name event namespace
      deployed redeployed in
  List.filter is_submission step.1 = []
  ∧ List.filter is_poller_start step.1 = []
  ∧ length (List.filter is_ingress_post step.1) ≤ 1.
Proof.
  unfold ingress_step, addIngressRuleIfNecessary.
  destruct (negb deployed || redeployed); [cbn; auto|].
  destruct (get_key _ event) as [v|]; [|cbn; auto].
  destruct (event_path v) as [path|e]; [|cbn; auto].
  destruct (truthy_str (provider_hostname provider)).
  - destruct (_ && _); [destruct (ingress_post cluster _)|];
      destruct (verbose opts); cbn; auto.
  - destruct (event_hostname v) as [hostname|e]; [|cbn; auto].
    destruct (_ && _); [destruct (ingress_post cluster _)|];
      destruct (verbose opts); cbn; auto.
Qed.

(** Whatever the cluster answers to the submission and to the ingress
    call, the chain of an event whose document could be built and whose
    functions could be listed runs to its end (it is counted).  It records
    at most one error, submits the function at most once, starts at most
    one poller and posts at most one ingress rule. *)
Theorem deployEvent_completes (opts : Options)
    (provider : Provider) (helpers : Helpers) (cluster : Cluster) (clock : Z)
    (name : string) (description : FunctionDefinition)
    (functionContent : string) (requirementsContent : option string)
    (event : Event) (funcs : ResourceDocument)
    (items : list ResourceDocument) :
  funcs_of_event provider helpers name description functionContent
    requirementsContent event = Ok funcs →
  functions_get cluster (function_namespace provider helpers description)
  = inr items →
  let chain :=
    deployEvent opts provider helpers cluster clock name description
      functionContent requirementsContent event in
  chain_end chain = Completed
  ∧ length (pushed chain) ≤ 1
  ∧ length (List.filter is_submission (actions chain)) ≤ 1
  ∧ length (List.filter is_poller_start (actions chain)) ≤ 1
  ∧ length (List.filter is_ingress_post (actions chain)) ≤ 1.
Proof.
  intros Hfuncs Hget chain. subst chain. unfold deployEvent.
  rewrite Hfuncs, Hget.
  destruct (existingSameFunction items funcs); [cbn; repeat split; lia|].
  destruct (existingFunction items funcs && force opts).
  { unfold redeployFunctionAndWait.
    destruct (functions_put cluster _ funcs); cbn; repeat split; lia. }
  unfold deployFunctionAndWait.
  destruct (functions_post cluster funcs) as [err|].
  { case_bool_decide; cbn; repeat split; lia. }
  simpl.
  pose proof (ingress_step_actions opts provider helpers cluster name event
                (function_namespace provider helpers description) true false)
    as (Hs & Hp & Hi).
  cbn zeta in Hs, Hp, Hi.
  destruct (ingress_step _ _ _ _ _ _ _ true false) as [acts settled].
  cbn [fst snd] in *.
  rewrite Hs, Hp. repeat split; try (simpl; lia).
  destruct settled; simpl; lia.
Qed.

Lemma deployEvent_completes_witness :
  let chain :=
    deployEvent (options false false) (provider (Some "example.com"))
      helpers (cluster [] None) clock "hello" (hello None)
      "def hello(): pass" None [("http", EvObj (Some "/") None)] in
  chain_end chain = Completed
  ∧ length (pushed chain) ≤ 1
  ∧ length (List.filter is_submission (actions chain)) ≤ 1
  ∧ length (List.filter is_poller_start (actions chain)) ≤ 1
  ∧ length (List.filter is_ingress_post (actions chain)) ≤ 1.
Proof.
  apply (deployEvent_completes (options false false)
           (provider (Some "example.com")) helpers (cluster [] None) clock
           "hello" (hello None) "def hello(): pass" None
           [("http", EvObj (Some "/") None)]
           (hello_document "def hello(): pass" None) []); reflexivity.
Defined.

(** A create call that the cluster refuses with a code other than 409 is
    recorded as an error of the deployment: the chain still completes, and
    neither a poller nor the ingress provisioner is started. *)
Theorem deployEvent_submission_error (opts : Options)
    (provider : Provider) (helpers : Helpers) (cluster : Cluster) (clock : Z)
    (name : string) (description : FunctionDefinition)
    (functionContent : string) (requirementsContent : option string)
    (event : Event) (funcs : ResourceDocument)
    (items : list ResourceDocument) (err : ApiError) :
  funcs_of_event provider helpers name description functionContent
    requirementsContent event = Ok funcs →
  functions_get cluster (function_namespace provider helpers description)
  = inr items →
  (∀ item, item ∈ items →
     metadata_name (metadata item) = metadata_name (metadata funcs) →
     spec item ≠ spec funcs) →
  force opts = false
  ∨ (∀ item, item ∈ items →
       metadata_name (metadata item) ≠ metadata_name (metadata funcs)) →
  functions_post cluster funcs = Some err →
  err_code err ≠ 409%Z →
  deployEvent opts provider helpers cluster clock name description
    functionContent requirementsContent event
  = {| actions :=
         [ApiFunctionsGet;
          CliLog ("Deploying function " +:+ name +:+ "...");
          ApiFunctionsPost funcs];
       pushed :=
         [ErrorObject
            ("Unable to deploy the function " +:+ name +:+ ". Received:"
             +:+ newline +:+ "  Code: " +:+ show_code (err_code err)
             +:+ newline +:+ "  Message: " +:+ err_message err)];
       chain_end := Completed |}.
Proof.
  intros Hfuncs Hget Hdiff Hcreate Hpost Hcode.
  pose proof (getFunctionDescription_name _ _ _ _ _ _ _ _ _ _ _ _ _ Hfuncs)
    as Hn.
  unfold deployEvent. rewrite Hfuncs, Hget.
  rewrite (existingSameFunction_false _ _ Hdiff).
  assert (existingFunction items funcs && force opts = false) as ->.
  { destruct Hcreate as [-> | Hnone]; [apply andb_false_r|].
    by rewrite (existingFunction_false _ _ Hnone). }
  unfold deployFunctionAndWait.
  rewrite Hpost, Hn, bool_decide_eq_false_2 by assumption.
  reflexivity.
Qed.

Lemma deployEvent_submission_error_witness :
  deployEvent (options false false) (provider None) helpers
    (cluster [] (Some {| err_code := 500; err_message := "internal" |}))
    clock "hello" (hello None) "def hello(): pass" None
    [("http", EvObj (Some "/") None)]
  = {| actions :=
         [ApiFunctionsGet;
          CliLog ("Deploying function " +:+ "hello" +:+ "...");
          ApiFunctionsPost (hello_document "def hello(): pass" None)];
       pushed :=
         [ErrorObject
            ("Unable to deploy the function " +:+ "hello" +:+ ". Received:"
             +:+ newline +:+ "  Code: " +:+ "500"
             +:+ newline +:+ "  Message: " +:+ "internal")];
       chain_end := Completed |}.
Proof.
  apply (deployEvent_submission_error (options false false) (provider None)
           helpers
           (cluster [] (Some {| err_code := 500; err_message := "internal" |}))
           clock "hello" (hello None) "def hello(): pass" None
           [("http", EvObj (Some "/") None)]
           (hello_document "def hello(): pass" None) []
           {| err_code := 500; err_message := "internal" |});
    try reflexivity.
  - intros item Hin. by apply elem_of_nil in Hin.
  - left. reflexivity.
  - discriminate.
Defined.

Lemma prefix_slash (t : string) : String.prefix "/" ("/" +:+ t) = true.
Proof.
  change ("/" +:+ t) with (String "/" t). cbn [String.prefix].
  destruct (Ascii.ascii_dec _ _); [by destruct t | done].
Qed.

(** The ingress provisioner posts a rule exactly for an [http] event with
    a path that is neither empty nor [/], or with a host name.  The rule is
    the second action, after the call itself.  Its path is absolute: the
    path of the event, with a slash in front if it has none, and [/] when
    the event has no path; its host is the host name given, or else the
    host of the API with [.nip.io]; it targets port 8080 of the function. *)
Theorem addIngressRuleIfNecessary_rule (opts : Options) (helpers : Helpers)
    (cluster : Cluster) (funcName : string)
    (eventType eventPath eventHostname : option string)
    (namespace : string) :
  let acts :=
    (addIngressRuleIfNecessary opts helpers cluster funcName eventType
       eventPath eventHostname namespace).1 in
  let needed :=
    bool_decide (eventType = Some "http")
    && ((truthy_str eventPath && bool_decide (eventPath ≠ Some "/"))
        || truthy_str eventHostname) in
  (needed = false → Forall (λ a, is_ingress_post a = false) acts)
  ∧ (needed = true →
     ∃ body,
       acts !! 1 = Some (ApiIngressPost body)
       ∧ ingress_name body = "ingress-" +:+ funcName
       ∧ ingress_serviceName body = funcName
       ∧ ingress_servicePort body = 8080%Z
       ∧ String.prefix "/" (ingress_path body) = true
       ∧ ingress_path body
         = (if truthy_str eventPath then
              if String.prefix "/" (default "" eventPath)
              then default "" eventPath
              else "/" +:+ default "" eventPath
            else "/")
       ∧ ingress_host body
         = (if truthy_str eventHostname then default "" eventHostname
            else api_hostname helpers +:+ ".nip.io")).
Proof.
  intros acts needed. subst acts needed.
  unfold addIngressRuleIfNecessary, isEmpty_str, or_str, startsWith.
  rewrite !negb_involutive.
  destruct (_ && _) eqn:Hneeded; split; try discriminate.
  - intros _.
    assert (Hpath :
      String.prefix "/"
        (if String.prefix "/"
              (default "/" (if truthy_str eventPath then eventPath
                            else Some "/"))
         then default "/" (if truthy_str eventPath then eventPath
                           else Some "/")
         else "/" +:+ default "/" (if truthy_str eventPath then eventPath
                                   else Some "/")) = true).
    { destruct (String.prefix "/" (default "/" _)) eqn:Hp;
        [exact Hp | apply prefix_slash]. }
    destruct (ingress_post cluster _); cbn [fst];
      eexists; (split; [reflexivity|]); cbn;
      (repeat split; [exact Hpath | |]);
      try (destruct eventPath as [path|]; cbn;
           [destruct (bool_decide (path ≠ "")); reflexivity | reflexivity]);
      try (destruct eventHostname as [host|]; cbn;
           [destruct (bool_decide (host ≠ "")); reflexivity | reflexivity]).
  - intros _. destruct (verbose opts); repeat constructor.
Qed.

Lemma addIngressRuleIfNecessary_rule_witness :
  ∃ body,
    (addIngressRuleIfNecessary (options false false) helpers
       (cluster [] None) "hello" (Some "http") (Some "hello") None
       "default").1 !! 1 = Some (ApiIngressPost body)
    ∧ ingress_path body = "/hello"
    ∧ ingress_host body = "192.168.99.100.nip.io".
Proof.
  destruct (addIngressRuleIfNecessary_rule (options false false) helpers
              (cluster [] None) "hello" (Some "http") (Some "hello") None
              "default") as [_ Hneeded].
  destruct (Hneeded eq_refl) as (body & Hbody & _ & _ & _ & _ & Hpath & Hhost).
  exists body. repeat split; assumption.
Defined.

End ReconcilerProps.

(** ** The deployment of a service *)

Module BatchProps.
Import Js KubelessDeploy JsFacts ReconcilerFacts Samples.

Lemma events_of_single (description : FunctionDefinition) :
  more_than_one_event description = false →
  ∃ event, events_of description = [event].
Proof.
  unfold more_than_one_event, events_of.
  destruct (fd_events description) as [[|e [|e' es]]|]; cbn; eauto.
  rewrite bool_decide_eq_true_2 by lia. discriminate.
Qed.

Lemma validate_single (functions : list (string * FunctionDefinition)) :
  validate functions = Ok () →
  Forall (λ f, more_than_one_event f.2 = false) functions.
Proof.
  unfold validate.
  destruct (existsb _ functions) eqn:He; [discriminate|]. intros _.
  apply List.Forall_forall. intros f Hf.
  destruct (more_than_one_event f.2) eqn:Hm; [|reflexivity].
  assert (existsb (λ f, more_than_one_event f.2) functions = true).
  { apply existsb_exists. exists f. split; assumption. }
  congruence.
Qed.

Lemma funcs_of_event_supported (provider : Provider) (helpers : Helpers)
    (name : string) (description : FunctionDefinition)
    (functionContent : string) (requirementsContent : option string)
    (event : Event) :
  if event_supported event
  then ∃ funcs, funcs_of_event provider helpers name description
                  functionContent requirementsContent event = Ok funcs
  else ∃ e, funcs_of_event provider helpers name description
              functionContent requirementsContent event = Throw e.
Proof.
  unfold event_supported, funcs_of_event, getFunctionDescription.
  destruct (bool_decide (first_key event = Some "http")); cbn; [eauto|].
  destruct (bool_decide (first_key event = Some "trigger")); cbn; [|eauto].
  destruct (isEmpty (get_key "trigger" event)); cbn; eauto.
Qed.

Lemma runtime_supported (runtime handler : string) :
  includes "python" runtime || includes "node" runtime
  || includes "ruby" runtime = true →
  ∃ names, getRuntimeFilenames runtime handler = Ok names.
Proof.
  unfold getRuntimeFilenames. intros Hr.
  destruct (includes "python" runtime); [eauto|].
  destruct (includes "node" runtime); [eauto|].
  destruct (includes "ruby" runtime); [eauto | discriminate].
Qed.

(** What the function of one entry of the service does to the state of
    the deployment, when it has at most one event and the runtime is
    supported: the counter grows by at most one, and the promise stays
    unsettled as long as the counter stays below the number of functions. *)
Lemma deployOne_effect (opts : Options) (provider : Provider)
    (helpers : Helpers) (cluster : Cluster) (clock : Z)
    (files : string → option string) (total : nat) (name : string)
    (description : FunctionDefinition) (d : Deployment) :
  includes "python" (provider_runtime provider)
  || includes "node" (provider_runtime provider)
  || includes "ruby" (provider_runtime provider) = true →
  more_than_one_event description = false →
  ∃ d',
    deployOne opts provider helpers cluster clock files total name
      description d = Ok d'
    ∧ counter d' ≤ S (counter d)
    ∧ (settled d = None → S (counter d) < total → settled d' = None)
    ∧ (truthy_str (fd_handler description) = false
       ∨ (∀ names,
            getRuntimeFilenames (provider_runtime provider)
              (default "" (fd_handler description)) = Ok names →
            files (file_handler names) = None)
       ∨ (∀ event, event ∈ events_of description →
            event_supported event = false) →
       counter d' = counter d ∧ settled d' = settled d).
Proof.
  intros Hruntime Hsingle. unfold deployOne.
  destruct (truthy_str (fd_handler description)) eqn:Hhandler.
  - destruct (runtime_supported _ (default "" (fd_handler description))
                Hruntime) as [names Hnames].
    rewrite Hnames. cbn.
    destruct (files (file_handler names)) as [functionContent|] eqn:Hfile.
    + destruct (events_of_single _ Hsingle) as [event Hevents].
      rewrite Hevents. cbn [deployEvents].
      set (c := deployEvent _ _ _ _ _ _ _ _ _ event).
      assert (Hdone : match chain_end c with
                      | Completed => run_chain total c d
                      | _ => run_chain total c d
                      end = run_chain total c d) by (by destruct (chain_end c)).
      rewrite Hdone. eexists. split; [reflexivity|].
      unfold run_chain, count_chain.
      repeat split.
      * destruct (chain_end c); cbn; lia.
      * intros Hs Hlt. destruct (chain_end c); cbn; rewrite ?Hs; try done.
        rewrite bool_decide_eq_false_2 by lia. reflexivity.
      * destruct H as [Hbad | [Hbad | Hbad]];
          [discriminate | rewrite (Hbad _ eq_refl) in Hfile; discriminate |].
        specialize (Hbad event). try rewrite Hevents in Hbad.
        specialize (Hbad ltac:(by apply list_elem_of_singleton)).
        pose proof (funcs_of_event_supported provider helpers name
                      description functionContent
                      (files (file_deps names)) event) as Hthrow.
        rewrite Hbad in Hthrow. destruct Hthrow as [e He].
        subst c. unfold deployEvent. rewrite He. reflexivity.
      * destruct H as [Hbad | [Hbad | Hbad]];
          [discriminate | rewrite (Hbad _ eq_refl) in Hfile; discriminate |].
        specialize (Hbad event). try rewrite Hevents in Hbad.
        specialize (Hbad ltac:(by apply list_elem_of_singleton)).
        pose proof (funcs_of_event_supported provider helpers name
                      description functionContent
                      (files (file_deps names)) event) as Hthrow.
        rewrite Hbad in Hthrow. destruct Hthrow as [e He].
        subst c. unfold deployEvent. rewrite He. reflexivity.
    + eexists. split; [reflexivity|]. repeat split; (lia || done).
  - eexists. split; [reflexivity|]. cbn. repeat split; (lia || done).
Qed.

Lemma deployFunctions_unsettled (opts : Options) (provider : Provider)
    (helpers : Helpers) (cluster : Cluster) (clock : Z)
    (files : string → option string) (total : nat)
    (functions : list (string * FunctionDefinition)) (d : Deployment) :
  includes "python" (provider_runtime provider)
  || includes "node" (provider_runtime provider)
  || includes "ruby" (provider_runtime provider) = true →
  Forall (λ f, more_than_one_event f.2 = false) functions →
  settled d = None →
  counter d + length functions < total →
  settled (deployFunctions opts provider helpers cluster clock files total
             functions d) = None.
Proof.
  intros Hruntime Hsingle. revert d.
  induction Hsingle as [|[name description] rest Hone _ IH]; intros d Hs Hlt;
    [assumption|].
  cbn [deployFunctions]. destruct (crashed d); [assumption|].
  destruct (deployOne_effect opts provider helpers cluster clock files total
              name description d Hruntime Hone)
    as (d' & -> & Hcount & Hsettled & _).
  cbn [length] in Hlt. apply IH; [apply Hsettled; [assumption | lia] | lia].
Qed.

(** A service with a function that is never counted (it has no handler,
    or its handler file cannot be read, or its event is not supported)
    leaves the promise of [deployFunction] unsettled for ever: the counter
    never reaches the number of functions.  (The runtime is supported and
    [validate] has passed.) *)
Theorem deployFunction_never_settles (opts : Options) (provider : Provider)
    (helpers : Helpers) (cluster : Cluster) (clock : Z)
    (files : string → option string)
    (functions : list (string * FunctionDefinition))
    (name : string) (description : FunctionDefinition) :
  includes "python" (provider_runtime provider)
  || includes "node" (provider_runtime provider)
  || includes "ruby" (provider_runtime provider) = true →
  validate functions = Ok () →
  (name, description) ∈ functions →
  truthy_str (fd_handler description) = false
  ∨ (∀ names,
       getRuntimeFilenames (provider_runtime provider)
         (default "" (fd_handler description)) = Ok names →
       files (file_handler names) = None)
  ∨ (∀ event, event ∈ events_of description →
       event_supported event = false) →
  settled (deployFunction opts provider helpers cluster clock files
             functions) = None.
Proof.
  intros Hruntime Hvalid%validate_single Hin Hbad. unfold deployFunction.
  assert (∀ total d,
            settled d = None → counter d + length functions ≤ total →
            settled (deployFunctions opts provider helpers cluster clock
                       files total functions d) = None) as Hgen.
  { intros total. clear -Hruntime Hvalid Hin Hbad.
    induction Hvalid as [|[name' description'] rest Hone Hrest IH];
      intros d Hs Hle; [by apply elem_of_nil in Hin|].
    cbn [deployFunctions]. destruct (crashed d); [assumption|].
    cbn [length] in Hle.
    destruct (deployOne_effect opts provider helpers cluster clock files
                total name' description' d Hruntime Hone)
      as (d' & -> & Hcount & Hsettled & Hskip).
    apply elem_of_cons in Hin as [[= <- <-] | Hin].
    - destruct (Hskip Hbad) as [Hc Hs'].
      apply deployFunctions_unsettled; try assumption; [congruence | lia].
    - assert (0 < length rest)
        by (destruct rest; [by apply elem_of_nil in Hin | cbn; lia]).
      apply IH; [assumption | apply Hsettled; [assumption | lia] | lia]. }
  apply Hgen; [reflexivity | cbn; lia].
Qed.

Lemma deployFunction_never_settles_witness :
  settled
    (deployFunction (options false false) (provider None) helpers
       (cluster [] None) clock files
       [("hello", hello None);
        ("draft",
         {| fd_handler := None; fd_namespace := None; fd_events := None;
            fd_description := None; fd_labels := None;
            fd_environment := None; fd_memorySize := None |})])
  = None.
Proof.
  apply (deployFunction_never_settles (options false false) (provider None)
           helpers (cluster [] None) clock files _ "draft"
           {| fd_handler := None; fd_namespace := None; fd_events := None;
              fd_description := None; fd_labels := None;
              fd_environment := None; fd_memorySize := None |}).
  - reflexivity.
  - reflexivity.
  - apply list_elem_of_In. cbn. auto.
  - left. reflexivity.
Defined.





(** With a runtime that is not supported, the first function with a
    handler rejects the promise of [deployFunction] with the error of
    [getRuntimeFilenames]; nothing is sent to the cluster and no error is
    recorded. *)
Theorem deployFunction_unsupported_runtime (opts : Options)
    (provider : Provider) (helpers : Helpers) (cluster : Cluster) (clock : Z)
    (files : string → option string)
    (functions : list (string * FunctionDefinition))
    (name : string) (description : FunctionDefinition) :
  includes "python" (provider_runtime provider)
  || includes "node" (provider_runtime provider)
  || includes "ruby" (provider_runtime provider) = false →
  (name, description) ∈ functions →
  truthy_str (fd_handler description) = true →
  let result :=
    deployFunction opts provider helpers cluster clock files functions in
  settled result
  = Some (Rejected (ErrorObject
            ("The runtime " +:+ provider_runtime provider
             +:+ " is not supported yet")))
  ∧ errors result = []
  ∧ Forall (λ a, ∃ line, a = CliLog line) (trace result).
Proof.
  intros Hruntime Hin Hhandler result. subst result. unfold deployFunction.
  assert (∀ total d,
            crashed d = None → settled d = None → errors d = [] →
            Forall (λ a, ∃ line, a = CliLog line) (trace d) →
            let result :=
              deployFunctions opts provider helpers cluster clock files total
                functions d in
            settled result
            = Some (Rejected (ErrorObject
                      ("The runtime " +:+ provider_runtime provider
                       +:+ " is not supported yet")))
            ∧ errors result = []
            ∧ Forall (λ a, ∃ line, a = CliLog line) (trace result)) as Hgen.
  { intros total. clear -Hruntime Hin Hhandler.
    apply orb_false_iff in Hruntime as [[Hp Hn]%orb_false_iff Hr].
    induction functions as [|[name' description'] rest IH];
      intros d Hc Hs He Ht; [by apply elem_of_nil in Hin|].
    cbn [deployFunctions]. rewrite Hc. unfold deployOne.
    destruct (truthy_str (fd_handler description')) eqn:Hh'.
    - unfold getRuntimeFilenames. rewrite Hp, Hn, Hr. cbn.
      rewrite Hs. repeat split; assumption.
    - apply elem_of_cons in Hin as [[= <- <-] | Hin]; [congruence|].
      cbn. apply IH; try assumption. cbn.
      apply Forall_app. split; [assumption|]. repeat constructor. eauto. }
  apply (Hgen (length functions) init_deployment); try reflexivity.
  constructor.
Qed.

Lemma deployFunction_unsupported_runtime_witness :
  let result :=
    deployFunction (options false false)
      {| provider_runtime := "go1.9"; provider_namespace := None;
         provider_memorySize := None; provider_hostname := None |}
      helpers (cluster [] None) clock files [("hello", hello None)] in
  settled result
  = Some (Rejected (ErrorObject
            ("The runtime " +:+ "go1.9" +:+ " is not supported yet")))
  ∧ errors result = []
  ∧ Forall (λ a, ∃ line, a = CliLog line) (trace result).
Proof.
  apply (deployFunction_unsupported_runtime (options false false)
           {| provider_runtime := "go1.9"; provider_namespace := None;
              provider_memorySize := None; provider_hostname := None |}
           helpers (cluster [] None) clock files [("hello", hello None)]
           "hello" (hello None)).
  - reflexivity.
  - apply list_elem_of_singleton. reflexivity.
  - reflexivity.
Defined.

End BatchProps.

(** ** More on the log filter *)

Module LogFilterProps.
Import Js KubelessLogs JsFacts LogsFacts RuntimeProps Samples.

Lemma slice_drop {A} (start : Z) (l : list A) :
  ∃ k, slice start l = drop k l
       ∧ Z.of_nat k
         = (if bool_decide (start < 0)%Z
            then Z.max (Z.of_nat (length l) + start) 0
            else Z.min start (Z.of_nat (length l))).
Proof.
  unfold slice. eexists. split; [reflexivity|].
  case_bool_decide; lia.
Qed.

Lemma slice_sublist {A} (start : Z) (l : list A) :
  slice start l `sublist_of` l.
Proof. unfold slice. apply sublist_drop. Qed.

Lemma List_filter_sublist {A} (p : A → bool) (l : list A) :
  List.filter p l `sublist_of` l.
Proof.
  induction l as [|x l IH]; cbn; [constructor|].
  destruct (p x); by constructor.
Qed.

Section FilterProps.
Context `{Moment} `{Regex}.

(** The count filter keeps a tail of the entries.  With a count between 1
    and the number of entries these are the last [count] entries; a count
    above the number of entries keeps only [count] minus that number of
    entries (all of them from twice the number on), because the start of
    the slice becomes negative; a negative count keeps nothing, and the
    count 0 is no filter. *)
Theorem count_filter_tail (opts : LogFilterOptions) (entries : list string)
    (n : Z) :
  count opts = Some n →
  let len := Z.of_nat (length entries) in
  ∃ dropped,
    entries = dropped ++ count_filter opts entries
    ∧ Z.of_nat (length (count_filter opts entries))
      = (if bool_decide (n = 0)%Z then len
         else if bool_decide (n < 0)%Z then 0
         else if bool_decide (n ≤ len)%Z then n
         else Z.min len (n - len))%Z.
Proof.
  intros Hn len. unfold count_filter. rewrite Hn.
  destruct (decide (n = 0)%Z) as [-> | Hne].
  - exists []. split; reflexivity.
  - rewrite bool_decide_eq_true_2 by assumption.
    rewrite (bool_decide_eq_false_2 (n = 0)%Z) by assumption.
    destruct (slice_drop (Z.of_nat (length entries) - n) entries)
      as (k & -> & Hk).
    exists (take k entries). split; [by rewrite take_drop|].
    rewrite length_drop. fold len in Hk. subst len.
    repeat case_bool_decide; lia.
Qed.

Lemma count_filter_tail_witness :
  let opts := {| startTime := None; count := Some 5%Z; filter := None |} in
  ∃ dropped,
    ["one"; "two"; "three"] = dropped ++ count_filter opts ["one"; "two"; "three"]
    ∧ Z.of_nat (length (count_filter opts ["one"; "two"; "three"])) = 2%Z.
Proof.
  intros opts.
  apply (count_filter_tail opts ["one"; "two"; "three"] 5%Z). reflexivity.
Defined.

Lemma filterLogs_kept (logs : string) (opts : LogFilterOptions) :
  ∃ kept,
    filterLogs logs opts = join newline kept
    ∧ kept `sublist_of` compact (split "010"%char logs).
Proof.
  unfold filterLogs.
  set (entries := compact (split "010"%char logs)).
  eexists. split; [reflexivity|].
  transitivity (pattern_filter opts (count_filter opts entries));
    [|transitivity (count_filter opts entries)].
  - unfold time_filter. destruct (startTime opts) as [start|]; [|done].
    case_bool_decide; [|done].
    cbn zeta. case_bool_decide; [apply slice_sublist | apply sublist_nil_l].
  - unfold pattern_filter. destruct (filter opts) as [pattern|]; [|done].
    case_bool_decide; [apply List_filter_sublist | done].
  - unfold count_filter. destruct (count opts) as [n|]; [|done].
    case_bool_decide; [apply slice_sublist | done].
Qed.

(** Whatever the options, the filter only selects: the result is made of
    lines of the input that are not empty, in their order, joined by line
    breaks. *)
Theorem filterLogs_selects (logs : string) (opts : LogFilterOptions) :
  ∃ kept,
    filterLogs logs opts = join newline kept
    ∧ kept `sublist_of` compact (split "010"%char logs)
    ∧ Forall (λ entry, entry ≠ "") kept.
Proof.
  destruct (filterLogs_kept logs opts) as (kept & Hjoin & Hsub).
  exists kept. repeat split; [assumption..|].
  apply List.Forall_forall. intros entry Hentry%list_elem_of_In.
  pose proof (elem_of_sublist _ _ _ Hentry Hsub) as Hin.
  unfold compact in Hin.
  apply list_elem_of_filter in Hin as [Hne _]. exact Hne.
Qed.

(** The output of the filter is a fixed point of the filter without
    options: filtering it again changes nothing, since it holds no empty
    line. *)
Theorem filterLogs_output_stable (logs : string) (opts : LogFilterOptions) :
  filterLogs (filterLogs logs opts) no_options = filterLogs logs opts.
Proof.
  destruct (filterLogs_kept logs opts) as (kept & -> & Hsub).
  assert (Hin : ∀ x, x ∈ kept →
                  x ≠ "" ∧ includes (String "010"%char "") x = false).
  { intros x Hx. pose proof (elem_of_sublist _ _ _ Hx Hsub) as Hc.
    unfold compact in Hc. apply list_elem_of_filter in Hc as [Hne Hs].
    split; [assumption|].
    pose proof (split_pieces "010"%char logs) as Hp.
    rewrite List.Forall_forall in Hp. apply Hp. by apply list_elem_of_In. }
  unfold filterLogs at 1. cbn.
  destruct kept as [|x kept]; [reflexivity|].
  unfold newline. rewrite split_join.
  - rewrite compact_id; [reflexivity|]. intros y Hy. by apply Hin.
  - discriminate.
  - apply List.Forall_forall. intros y Hy%list_elem_of_In. by apply Hin.
Qed.

(** A start time that [moment] cannot resolve drops every entry. *)
Theorem filterLogs_unresolved_start (logs : string) (opts : LogFilterOptions)
    (start : string) :
  startTime opts = Some start → start ≠ "" →
  startMoment start = None →
  filterLogs logs opts = "".
Proof.
  intros Hstart Hne Hnone. unfold filterLogs, time_filter.
  rewrite Hstart, bool_decide_eq_true_2 by assumption. cbn zeta.
  rewrite findIndex_none; [reflexivity|].
  intros entry _. unfold at_or_after. rewrite Hnone.
  destruct (entryDate entry); [|reflexivity].
  unfold ge_number. by destruct (moment_parse_format _ _).
Qed.

(** The test of the time filter, spelled out: the entry holds a date text,
    [moment] reads it with the format of the log lines, the start time
    resolves (as a time span before the present instant when it holds one of
    the letters m, h and d, as a date otherwise), and the instant read is
    not before the instant resolved. *)
Lemma at_or_after_spec (start entry : string) :
  at_or_after (startMoment start) entry = true
  ↔ ∃ date read resolved,
      entryDate entry = Some date
      ∧ moment_parse_format date "DD/MMM/YYYY:HH:mm:ss Z" = Some read
      ∧ (if includes "m" start || includes "h" start || includes "d" start
         then moment_subtract (keep_chars is_digit start)
                (keep_chars (λ c, negb (is_digit c)) start)
         else moment_parse start) = Some resolved
      ∧ (resolved ≤ read)%Z.
Proof.
  change (if includes "m" start || includes "h" start || includes "d" start
          then moment_subtract (keep_chars is_digit start)
                 (keep_chars (λ c, negb (is_digit c)) start)
          else moment_parse start)
    with (startMoment start).
  unfold at_or_after, ge_number. split.
  - destruct (entryDate entry) as [date|]; [|discriminate].
    destruct (moment_parse_format date _) as [read|] eqn:Hread;
      [|discriminate].
    destruct (startMoment start) as [resolved|]; [|discriminate].
    intros Hle%bool_decide_eq_true. exists date, read, resolved.
    repeat split; assumption.
  - intros (date & read & resolved & -> & -> & -> & Hle).
    by apply bool_decide_eq_true_2.
Qed.

(** The time filter.  With a start time set, the result starts at the
    first entry of which [moment] reads the date text as an instant at or
    after the resolved start and runs to the last entry; it is empty when
    there is no such entry.  The start time resolves as a time span before
    the present instant when it holds one of the letters m, h and d, and as
    a date otherwise; the entries are those left by the count and pattern
    filters. *)
Theorem filterLogs_time_filter (logs : string) (opts : LogFilterOptions)
    (start : string) :
  startTime opts = Some start → start ≠ "" →
  let entries :=
    pattern_filter opts
      (count_filter opts (compact (split "010"%char logs))) in
  let resolved :=
    if includes "m" start || includes "h" start || includes "d" start
    then moment_subtract (keep_chars is_digit start)
           (keep_chars (λ c, negb (is_digit c)) start)
    else moment_parse start in
  let reached entry :=
    ∃ date read instant,
      entryDate entry = Some date
      ∧ moment_parse_format date "DD/MMM/YYYY:HH:mm:ss Z" = Some read
      ∧ resolved = Some instant
      ∧ (instant ≤ read)%Z in
  (∀ before entry after,
     entries = before ++ entry :: after →
     reached entry →
     (∀ e, e ∈ before → ¬ reached e) →
     filterLogs logs opts = join newline (entry :: after))
  ∧ ((∀ e, e ∈ entries → ¬ reached e) → filterLogs logs opts = "")
  ∧ ((∀ e, e ∈ entries → ¬ reached e)
     ∨ ∃ before entry after,
         entries = before ++ entry :: after ∧ reached entry
         ∧ ∀ e, e ∈ before → ¬ reached e).
Proof.
  intros Hstart Hne entries resolved reached.
  assert (Hspec : ∀ e, at_or_after (startMoment start) e = true ↔ reached e)
    by (intros e; apply at_or_after_spec).
  assert (Hnot : ∀ e, at_or_after (startMoment start) e = false ↔ ¬ reached e).
  { intros e. rewrite <- Hspec. symmetry. apply not_true_iff_false. }
  destruct (filterLogs_from_first logs opts start Hstart Hne)
    as [Hfirst Hnone].
  split; [|split].
  - intros before entry after Hentries Hentry Hbefore.
    apply (Hfirst before); [exact Hentries | by apply Hspec |].
    intros e He. apply Hnot. by apply Hbefore.
  - intros Hall. apply Hnone. intros e He. apply Hnot. by apply Hall.
  - destruct (first_or_none (at_or_after (startMoment start)) entries)
      as [Hall | (before & entry & after & Hentries & Hentry & Hbefore)].
    + left. intros e He. apply Hnot. by apply Hall.
    + right. exists before, entry, after. split; [exact Hentries|].
      split; [by apply Hspec|]. intros e He. apply Hnot. by apply Hbefore.
Qed.

End FilterProps.

Lemma prefix_cons (c : ascii) (m s : string) :
  String.prefix (String c m) (String c s) = String.prefix m s.
Proof.
  cbn [String.prefix]. destruct (Ascii.ascii_dec c c); [reflexivity | done].
Qed.

Lemma match_tokens_matched (tokens : list Token) (s m : string) :
  match_tokens tokens s = Some m →
  String.prefix m s = true ∧ match_tokens tokens m = Some m.
Proof.
  revert s m. induction tokens as [|t tokens IH]; intros s m.
  - intros [= <-]. split; [by destruct s | reflexivity].
  - cbn [match_tokens]. destruct s as [|c s]; [discriminate|].
    destruct (token_ok t c) eqn:Hc; [|discriminate].
    destruct (match_tokens tokens s) as [m'|] eqn:Hm; [|discriminate].
    intros [= <-]. destruct (IH _ _ Hm) as [Hp Hm'].
    split; [by rewrite prefix_cons|].
    cbn [match_tokens]. rewrite Hc, Hm'. reflexivity.
Qed.

Lemma entryDate_unfold (entry : string) :
  entryDate entry
  = match match_tokens timestamp_tokens entry with
    | Some m => Some m
    | None =>
        match match_tokens offset_tokens entry with
        | Some m => Some m
        | None =>
            match entry with
            | EmptyString => None
            | String _ rest => entryDate rest
            end
        end
    end.
Proof. destruct entry; reflexivity. Qed.

Lemma includes_unfold (needle s : string) :
  includes needle s
  = String.prefix needle s
    || match s with
       | EmptyString => false
       | String _ s' => includes needle s'
       end.
Proof. destruct s; reflexivity. Qed.

(** The date that is read from a log entry is a piece of the entry that
    has the shape of the time stamp, or else the shape of the second branch
    of the pattern: a minus sign and four digits. *)
Theorem entryDate_shape (entry date : string) :
  entryDate entry = Some date →
  includes date entry = true
  ∧ (match_tokens timestamp_tokens date = Some date
     ∨ match_tokens offset_tokens date = Some date).
Proof.
  induction entry as [|c entry IH]; rewrite entryDate_unfold.
  - discriminate.
  - rewrite (includes_unfold date).
    destruct (match_tokens timestamp_tokens (String c entry)) as [m|] eqn:Ht.
    { intros [= ->]. destruct (match_tokens_matched _ _ _ Ht) as [-> Hm].
      split; [reflexivity | by left]. }
    destruct (match_tokens offset_tokens (String c entry)) as [m|] eqn:Ho.
    { intros [= ->]. destruct (match_tokens_matched _ _ _ Ho) as [-> Hm].
      split; [reflexivity | by right]. }
    intros Hrest. destruct (IH Hrest) as [Hin Hshape].
    split; [|assumption]. rewrite Hin. apply orb_true_r.
Qed.

Lemma entryDate_shape_witness :
  includes "-1234" "took -1234 ms" = true
  ∧ (match_tokens timestamp_tokens "-1234" = Some "-1234"
     ∨ match_tokens offset_tokens "-1234" = Some "-1234").
Proof. apply (entryDate_shape "took -1234 ms" "-1234"). reflexivity. Defined.

Section PrintProps.
Context `{Moment} `{Regex}.

Lemma log_callbacks_settled (cluster : LogsCluster) (opts : LogFilterOptions)
    (silent : bool) (functionPods : list LogPod) (run : LogsRun)
    (settled : KubelessDeploy.Settled string) :
  log_settled run = Some settled →
  log_settled (log_callbacks cluster opts silent functionPods run)
  = Some settled.
Proof.
  revert run. induction functionPods as [|pod rest IH]; intros run Hs;
    [assumption|].
  cbn [log_callbacks]. destruct (pod_log cluster (logpod_name pod));
    [assumption|].
  apply IH. cbn. rewrite Hs. reflexivity.
Qed.

Lemma log_callbacks_silent (cluster : LogsCluster) (opts : LogFilterOptions)
    (functionPods : list LogPod) (run : LogsRun) :
  Forall (λ a, ∀ text, a ≠ ConsoleLog text) (log_actions run) →
  Forall (λ a, ∀ text, a ≠ ConsoleLog text)
    (log_actions (log_callbacks cluster opts true functionPods run)).
Proof.
  revert run. induction functionPods as [|pod rest IH]; intros run Hs;
    [assumption|].
  cbn [log_callbacks]. destruct (pod_log cluster (logpod_name pod));
    [assumption|].
  apply IH. cbn. rewrite andb_false_r, app_nil_r. assumption.
Qed.

(** [printLogs] resolves with the filtered log of the first pod of the
    function, when its log can be fetched; with [silent] nothing is written
    to the console. *)
Theorem printLogs_first_pod (cluster : LogsCluster) (function : string)
    (opts : LogFilterOptions) (silent : bool) (items rest : list LogPod)
    (pod : LogPod) (logs : option string) :
  pods_get cluster = inr items →
  filter_logpods function items = Ok (pod :: rest) →
  pod_log cluster (logpod_name pod) = inr logs →
  log_settled (printLogs cluster function opts silent)
  = Some (KubelessDeploy.Resolved (filterLogs (default "" logs) opts))
  ∧ (silent = true →
     Forall (λ a, ∀ text, a ≠ ConsoleLog text)
       (log_actions (printLogs cluster function opts silent))).
Proof.
  intros Hget Hpods Hlog. unfold printLogs. rewrite Hget, Hpods. split.
  - cbn [log_callbacks]. rewrite Hlog.
    apply log_callbacks_settled. reflexivity.
  - intros ->. apply log_callbacks_silent.
    constructor; [discriminate|].
    apply List.Forall_forall. intros a (p & <- & _)%in_map_iff. discriminate.
Qed.

(** When no listed pod carries the label of the function, [printLogs]
    rejects with the pod-not-found message and fetches no log. *)
Theorem printLogs_pod_not_found (cluster : LogsCluster) (function : string)
    (opts : LogFilterOptions) (silent : bool) (items : list LogPod) :
  pods_get cluster = inr items →
  Forall (λ pod,
            ∃ labels, logpod_labels pod = Some labels
                      ∧ KubelessDeploy.label "function" labels
                        ≠ Some function) items →
  printLogs cluster function opts silent
  = {| log_actions := [ApiPodsGet];
       log_settled :=
         Some (KubelessDeploy.Rejected
                 (KubelessDeploy.Reason (pod_not_found function)));
       log_thrown := None |}.
Proof.
  intros Hget Hall. unfold printLogs. rewrite Hget.
  assert (Hnone : filter_logpods function items = Ok []).
  { clear Hget.
    induction Hall as [|pod rest (labels & Hl & Hne) _ IH]; [reflexivity|].
    cbn [filter_logpods]. unfold is_function_logpod. rewrite Hl, IH.
    cbn. rewrite bool_decide_eq_false_2 by assumption. reflexivity. }
  rewrite Hnone. reflexivity.
Qed.

End PrintProps.

Lemma printLogs_first_pod_witness :
  let cluster :=
    {| pods_get :=
         inr [{| logpod_name := "other-1";
                 logpod_labels := Some [("function", "other")] |};
              {| logpod_name := "hello-1";
                 logpod_labels := Some [("function", "hello")] |}];
       pod_log := λ _, inr (Some sample_log) |} in
  log_settled
    (@printLogs sample_moment sample_regex cluster "hello" no_options true)
  = Some (KubelessDeploy.Resolved
            (@filterLogs sample_moment sample_regex
               (default "" (Some sample_log)) no_options))
  ∧ Forall (λ a, ∀ text, a ≠ ConsoleLog text)
      (log_actions
         (@printLogs sample_moment sample_regex cluster "hello" no_options
            true)).
Proof.
  intros cluster.
  destruct (@printLogs_first_pod sample_moment sample_regex cluster "hello"
              no_options true
              [{| logpod_name := "other-1";
                  logpod_labels := Some [("function", "other")] |};
               {| logpod_name := "hello-1";
                  logpod_labels := Some [("function", "hello")] |}]
              []
              {| logpod_name := "hello-1";
                 logpod_labels := Some [("function", "hello")] |}
              (Some sample_log)) as [Hsettled Hsilent];
    [reflexivity..|].
  split; [exact Hsettled | exact (Hsilent eq_refl)].
Defined.

Lemma printLogs_pod_not_found_witness :
  let cluster :=
    {| pods_get :=
         inr [{| logpod_name := "other-1";
                 logpod_labels := Some [("function", "other")] |}];
       pod_log := λ _, inr (Some sample_log) |} in
  @printLogs sample_moment sample_regex cluster "hello" no_options false
  = {| log_actions := [ApiPodsGet];
       log_settled :=
         Some (KubelessDeploy.Rejected
                 (KubelessDeploy.Reason (pod_not_found "hello")));
       log_thrown := None |}.
Proof.
  intros cluster.
  apply (@printLogs_pod_not_found sample_moment sample_regex cluster "hello"
           no_options false
           [{| logpod_name := "other-1";
               logpod_labels := Some [("function", "other")] |}]).
  - reflexivity.
  - repeat constructor. eexists. split; [reflexivity | discriminate].
Defined.

Lemma filterLogs_unresolved_start_witness :
  since "xyz" = false
  ∧ @filterLogs sample_moment sample_regex sample_log
      {| startTime := Some "xyz"; count := None; filter := None |}
    = "".
Proof.
  split; [reflexivity|].
  apply (@filterLogs_unresolved_start sample_moment sample_regex sample_log
           {| startTime := Some "xyz"; count := None; filter := None |}
           "xyz"); [reflexivity | discriminate | reflexivity].
Defined.

Lemma filterLogs_time_filter_witness :
  @filterLogs sample_moment sample_regex sample_log
    {| startTime := Some "1m"; count := None; filter := None |}
  = join newline
      ["10.0.0.1 - - [05/Sep/2017:10:00:30 +0000] GET / 500";
       "Traceback (most recent call last):"].
Proof.
  pose proof (@filterLogs_time_filter sample_moment sample_regex sample_log
                {| startTime := Some "1m"; count := None; filter := None |}
                "1m" eq_refl ltac:(discriminate)) as Htime.
  cbv zeta in Htime. destruct Htime as [Hfirst _].
  apply (Hfirst ["10.0.0.1 - - [05/Sep/2017:09:59:00 +0000] GET / 200"]).
  - reflexivity.
  - exists "05/Sep/2017:10:00:30 +0000", 1504605630000%Z, 1504605540123%Z.
    repeat split. vm_compute. discriminate.
  - intros e ->%list_elem_of_singleton (date & read & instant & Hd & Hr & Hs & Hle).
    vm_compute in Hd. injection Hd as <-.
    vm_compute in Hr. injection Hr as <-.
    vm_compute in Hs. injection Hs as <-.
    vm_compute in Hle. by apply Hle.
Defined.

End LogFilterProps.
